(** * ProtocolConformanceRef: a shallow embedding of lib/AST/ProtocolConformanceRef.cpp

    A conformance reference wraps a pointer union over an abstract, a concrete
    or a pack conformance, or is null.  The type and declaration graph, the
    conformance lookup service and the payload classes are collaborators of
    the file: they appear here as the interfaces [TypeGraph] and
    [Collaborators], and every function of the file is written against them. *)

From Stdlib Require Import List Bool String Arith NArith Lia.
Import ListNotations.
Open Scope string_scope.
Open Scope list_scope.

Set Implicit Arguments.

(** ** Declarations

    Declarations live in the AST arena and are compared by pointer; a
    declaration is represented by the handle that names it. *)

Definition Identifier := string.
Definition DeclName := string.
Definition ProtocolDecl := string.
Definition ValueDecl := string.

(** An associated type knows the protocol that declares it
    ([assocType->getProtocol()]). *)
Record AssociatedTypeDecl : Type := mkAssociatedTypeDecl {
  assoc_name : Identifier;
  assoc_getProtocol : ProtocolDecl
}.

Definition ProtocolDecl_eqb (p q : ProtocolDecl) : bool := String.eqb p q.

(** [SubstFlags] named by the file; [SubstOptions] is a set of them. *)
Inductive SubstFlags : Type :=
| SubstituteOpaqueArchetypes
| PreservePackExpansionLevel
| SubstitutePrimaryArchetypes.

Definition SubstOptions := list SubstFlags.

(** ** The type graph

    [Type] is a nullable pointer to a [TypeBase]; the file only uses the
    capabilities listed below. *)
Class TypeGraph : Type := {
  TypeBase : Type;
  GenericEnvironment : Type;
  (* shape tests *)
  getAs_OpaqueTypeArchetypeType : TypeBase -> option TypeBase;
  getAs_ArchetypeType : TypeBase -> option TypeBase;
  isa_GenericTypeParamType : TypeBase -> bool;
  is_ErrorType : TypeBase -> bool;
  is_UnresolvedType : TypeBase -> bool;
  is_PlaceholderType : TypeBase -> bool;
  isTypeParameter : TypeBase -> bool;
  isTypeVariableOrMember : TypeBase -> bool;
  isExistentialType : TypeBase -> bool;
  isEqual : TypeBase -> TypeBase -> bool;
  (* canonical types *)
  TypeBase_isCanonical : TypeBase -> bool;
  getCanonicalType : TypeBase -> TypeBase;
  (* constructors *)
  ErrorType_get : TypeBase;                        (* ErrorType::get(ctx) *)
  ErrorType_get_original : TypeBase -> TypeBase;   (* ErrorType::get(Type) *)
  DependentMemberType_get : TypeBase -> AssociatedTypeDecl -> TypeBase;
  (* archetypes *)
  getNestedType : TypeBase -> AssociatedTypeDecl -> option TypeBase;
  getGenericEnvironment : TypeBase -> GenericEnvironment;
  getInterfaceType : TypeBase -> TypeBase;
  mapTypeIntoContext : GenericEnvironment -> TypeBase -> TypeBase;
  (* Type::transformRec *)
  transformRec : TypeBase -> (TypeBase -> option TypeBase) -> TypeBase;
  (* declaration queries *)
  ProtocolDecl_getAssociatedType :
    ProtocolDecl -> Identifier -> option AssociatedTypeDecl;
  ProtocolDecl_getSingleRequirement : ProtocolDecl -> DeclName -> option ValueDecl
}.

(** ** Conformance payloads and the reference itself *)

Section DataModel.
Context {TG : TypeGraph}.

(** The nullable [Type] wrapper: [Type()] is [None]. *)
Definition Ty : Type := option TypeBase.

(** [AbstractConformance]: the pair (conforming type, protocol). *)
Record AbstractConformance : Type := mkAbstractConformance {
  abstract_getType : TypeBase;
  abstract_getProtocol : ProtocolDecl
}.

(** [BuiltinProtocolConformance]: [builtin_id] stands for the object's
    identity, [isMissing] for its kind being "missing". *)
Record BuiltinProtocolConformance : Type := mkBuiltinProtocolConformance {
  builtin_id : nat;
  isMissing : bool
}.

(** The root conformance classes distinguished by [dyn_cast]. *)
Inductive RootProtocolConformance : Type :=
| RootNormal
| RootSelf
| RootBuiltin (b : BuiltinProtocolConformance).

(** [ProtocolConformanceRef] holds [PointerUnion<AbstractConformance *,
    ProtocolConformance *, PackConformance *>]; [NullRef] is the null union.
    A concrete conformance exposes its type, protocol, root conformance and
    the conformances of its substitution map; a pack conformance its pack
    type, protocol and pattern conformances. *)
Inductive ProtocolConformanceRef : Type :=
| NullRef
| AbstractRef (a : AbstractConformance)
| ConcreteRef (c : ProtocolConformance)
| PackRef (p : PackConformance)
with ProtocolConformance : Type :=
| mkProtocolConformance (ty : TypeBase) (proto : ProtocolDecl)
    (root : RootProtocolConformance)
    (subMapConformances : list ProtocolConformanceRef)
with PackConformance : Type :=
| mkPackConformance (ty : TypeBase) (proto : ProtocolDecl)
    (patternConformances : list ProtocolConformanceRef).

Definition concrete_getType (c : ProtocolConformance) : TypeBase :=
  match c with mkProtocolConformance ty _ _ _ => ty end.
Definition concrete_getProtocol (c : ProtocolConformance) : ProtocolDecl :=
  match c with mkProtocolConformance _ proto _ _ => proto end.
Definition getRootConformance (c : ProtocolConformance) : RootProtocolConformance :=
  match c with mkProtocolConformance _ _ root _ => root end.
(** [concrete->getSubstitutionMap().getConformances()] *)
Definition getSubstitutionMapConformances (c : ProtocolConformance)
  : list ProtocolConformanceRef :=
  match c with mkProtocolConformance _ _ _ subs => subs end.

Definition pack_getType (p : PackConformance) : TypeBase :=
  match p with mkPackConformance ty _ _ => ty end.
Definition pack_getProtocol (p : PackConformance) : ProtocolDecl :=
  match p with mkPackConformance _ proto _ => proto end.
Definition getPatternConformances (p : PackConformance)
  : list ProtocolConformanceRef :=
  match p with mkPackConformance _ _ pats => pats end.

(** A substitution map, as far as the file looks into it. *)
Record SubstitutionMap : Type := mkSubstitutionMap {
  getReplacementTypes : list TypeBase;
  getConformances : list ProtocolConformanceRef
}.

(** [ConcreteDeclRef]: null, or a declaration with substitutions. *)
Definition ConcreteDeclRef : Type := option (ValueDecl * SubstitutionMap).

(** [InFlightSubstitution], the substitution context: the type replacement
    function it was built from, its local conformance lookup, and whether
    opaque archetypes are to be substituted. *)
Record InFlightSubstitution : Type := mkInFlightSubstitution {
  BaselineSubstType : TypeBase -> option TypeBase;
  IFS_lookupConformance :
    TypeBase -> TypeBase -> ProtocolDecl -> nat -> ProtocolConformanceRef;
  shouldSubstituteOpaqueArchetypes : bool
}.

End DataModel.

(** ** Collaborators

    The conformance lookup service, type substitution, and the methods of
    the payload classes the file delegates to. *)
Class Collaborators {TG : TypeGraph} : Type := {
  (* global conformance lookup: type, protocol, allowMissing *)
  lookupConformance : TypeBase -> ProtocolDecl -> bool -> ProtocolConformanceRef;
  (* Type::subst *)
  Type_subst : TypeBase -> InFlightSubstitution -> TypeBase;
  Type_subst_map : TypeBase -> SubstitutionMap -> option TypeBase;
  getProtocolSubstitutions :
    ProtocolDecl -> TypeBase -> ProtocolConformanceRef -> SubstitutionMap;
  (* ProtocolConformance *)
  concrete_subst : ProtocolConformance -> InFlightSubstitution -> ProtocolConformanceRef;
  concrete_getTypeWitness :
    ProtocolConformance -> AssociatedTypeDecl -> SubstOptions -> option TypeBase;
  concrete_getAssociatedConformance :
    ProtocolConformance -> TypeBase -> ProtocolDecl -> ProtocolConformanceRef;
  concrete_getWitnessDeclRef : ProtocolConformance -> ValueDecl -> ConcreteDeclRef;
  concrete_isCanonical : ProtocolConformance -> bool;
  concrete_getCanonicalConformance : ProtocolConformance -> ProtocolConformance;
  (* PackConformance *)
  pack_isInvalid : PackConformance -> bool;
  pack_subst : PackConformance -> InFlightSubstitution -> ProtocolConformanceRef;
  pack_getTypeWitness : PackConformance -> AssociatedTypeDecl -> option TypeBase;
  pack_getAssociatedConformance :
    PackConformance -> TypeBase -> ProtocolDecl -> PackConformance;
  pack_isCanonical : PackConformance -> bool;
  pack_getCanonicalConformance : PackConformance -> PackConformance
}.

(** ** Executions: lookups performed, and assertions

    A call either returns or stops at a failed check; on the way it may call
    the lookup services.  [Exec A] records both. *)

Inductive Event {TG : TypeGraph} : Type :=
| GlobalLookup (ty : TypeBase) (proto : ProtocolDecl) (allowMissing : bool)
| LocalLookup (origCanonical substType : TypeBase) (proto : ProtocolDecl)
    (level : nat).

Inductive Failure : Type :=
| AssertionFailure (condition : string)
| NullDereference.

Inductive Outcome (A : Type) : Type :=
| Returned (a : A)
| Aborted (f : Failure).
Arguments Aborted {A} f.

Definition Exec {TG : TypeGraph} (A : Type) : Type := (list Event * Outcome A)%type.

Section Monad.
Context {TG : TypeGraph}.

Definition ret {A} (a : A) : Exec A := ([], Returned a).

Definition bind {A B} (m : Exec A) (k : A -> Exec B) : Exec B :=
  match m with
  | (evs, Returned a) =>
      match k a with (evs', o) => (evs ++ evs', o) end
  | (evs, Aborted f) => (evs, Aborted f)
  end.

Definition emit (e : Event) : Exec unit := ([e], Returned tt).

Definition abort {A} (f : Failure) : Exec A := ([], Aborted f).

(** Modelled from the spec: the assertion macros [ASSERT], [assert] and
    [CONDITIONAL_ASSERT] (swift/Basic/Assertions.h is not among the sources).
    Section 7 makes a violated precondition a fatal assertion: the call stops
    there and returns nothing. *)
Definition ASSERT (cond : bool) (text : string) : Exec unit :=
  if cond then ret tt else abort (AssertionFailure text).

(** Dereferencing a nullable [Type]. *)
Definition deref (t : Ty) : Exec TypeBase :=
  match t with
  | Some tb => ret tb
  | None => abort NullDereference
  end.

End Monad.

Declare Scope exec_scope.
Delimit Scope exec_scope with exec.
Notation "x <- m ;; k" := (bind m (fun x => k))
  (at level 61, m at next level, right associativity) : exec_scope.
Notation "m ;;; k" := (bind m (fun _ => k))
  (at level 61, right associativity) : exec_scope.
Open Scope exec_scope.

(** ** The functions of ProtocolConformanceRef.cpp *)

Section Ref.
Context {TG : TypeGraph} {CS : Collaborators}.

Definition isNonNull {A} (p : option A) : bool :=
  match p with Some _ => true | None => false end.

(** [ProtocolConformanceRef::isInvalid] *)
Definition isInvalid (r : ProtocolConformanceRef) : bool :=
  match r with
  | NullRef => true                       (* if (!Union) return true *)
  | PackRef pack => pack_isInvalid pack   (* Union.dyn_cast<PackConformance *>() *)
  | _ => false
  end.

(** The variant tests, accessors and constructors of the reference are
    declared in the header swift/AST/ProtocolConformanceRef.h, which is not
    among the sources.  Section 3 of the spec has exactly one variant active
    at a time, section 4.1 describes the tests as tests of the active
    variant and the accessors as "fail-fast (assert) when called on the
    wrong variant", and section 6 lists the constructors.  A reference for
    which [isInvalid] holds is in the invalid variant and in no other: each
    of the three other tests asks that the reference is not invalid and that
    the union holds the payload of its kind. *)

(** Modelled from the spec: [isConcrete] of the header, the test that the
    active variant is the concrete one. *)
Definition isConcrete (r : ProtocolConformanceRef) : bool :=
  negb (isInvalid r)
  && match r with ConcreteRef _ => true | _ => false end.

(** Modelled from the spec: [isPack] of the header, the test that the active
    variant is the pack one; it fails on a pack that is invalid. *)
Definition isPack (r : ProtocolConformanceRef) : bool :=
  negb (isInvalid r)
  && match r with PackRef _ => true | _ => false end.

(** Modelled from the spec: [isAbstract] of the header, the test that the
    active variant is the abstract one. *)
Definition isAbstract (r : ProtocolConformanceRef) : bool :=
  negb (isInvalid r)
  && match r with AbstractRef _ => true | _ => false end.

(** Modelled from the spec: [getConcrete] of the header; it asserts
    [isConcrete()] and hands out the payload. *)
Definition getConcrete (r : ProtocolConformanceRef) : Exec ProtocolConformance :=
  if isConcrete r then
    match r with
    | ConcreteRef c => ret c
    | _ => abort NullDereference
    end
  else abort (AssertionFailure "isConcrete()").

(** Modelled from the spec: [getPack] of the header; it asserts [isPack()]
    and hands out the payload, so it fails on a pack that is invalid. *)
Definition getPack (r : ProtocolConformanceRef) : Exec PackConformance :=
  if isPack r then
    match r with
    | PackRef p => ret p
    | _ => abort NullDereference
    end
  else abort (AssertionFailure "isPack()").

(** Modelled from the spec: [getAbstract] of the header; it asserts
    [isAbstract()] and hands out the payload. *)
Definition getAbstract (r : ProtocolConformanceRef) : Exec AbstractConformance :=
  if isAbstract r then
    match r with
    | AbstractRef a => ret a
    | _ => abort NullDereference
    end
  else abort (AssertionFailure "isAbstract()").

(** Modelled from the spec: [forAbstract(type, interface)] of the header,
    the abstract reference for the pair. *)
Definition forAbstract (conformingType : TypeBase) (proto : ProtocolDecl)
  : ProtocolConformanceRef :=
  AbstractRef (mkAbstractConformance conformingType proto).

(** Modelled from the spec: [forInvalid()] of the header, the reference
    with no payload. *)
Definition forInvalid : ProtocolConformanceRef := NullRef.

(** Modelled from the spec: the header's conversion to [bool], used as
    "a conformance was found" (section 4.2). *)
Definition operator_bool (r : ProtocolConformanceRef) : bool :=
  negb (isInvalid r).

(** The two lookup services, with the call recorded. *)
Definition call_lookupConformance (ty : TypeBase) (proto : ProtocolDecl)
  (allowMissing : bool) : Exec ProtocolConformanceRef :=
  emit (GlobalLookup ty proto allowMissing) ;;;
  ret (lookupConformance ty proto allowMissing).

Definition call_IFS_lookupConformance (IFS : InFlightSubstitution)
  (origCanonical substType : TypeBase) (proto : ProtocolDecl) (level : nat)
  : Exec ProtocolConformanceRef :=
  emit (LocalLookup origCanonical substType proto level) ;;;
  ret (IFS_lookupConformance IFS origCanonical substType proto level).

(** [ProtocolConformanceRef::getType] *)
Definition getType (r : ProtocolConformanceRef) : Exec Ty :=
  if isInvalid r then ret None
  else if isConcrete r then
    c <- getConcrete r ;; ret (Some (concrete_getType c))
  else if isPack r then
    p <- getPack r ;; ret (Some (pack_getType p))
  else
    a <- getAbstract r ;; ret (Some (abstract_getType a)).

(** [ProtocolConformanceRef::getProtocol] *)
Definition getProtocol (r : ProtocolConformanceRef) : Exec ProtocolDecl :=
  if isConcrete r then
    c <- getConcrete r ;; ret (concrete_getProtocol c)
  else if isPack r then
    p <- getPack r ;; ret (pack_getProtocol p)
  else
    a <- getAbstract r ;; ret (abstract_getProtocol a).

(** [ProtocolConformanceRef::subst(Type origType, InFlightSubstitution &IFS)] *)
Definition subst (r : ProtocolConformanceRef) (origType : TypeBase)
  (IFS : InFlightSubstitution) : Exec ProtocolConformanceRef :=
  if isInvalid r then ret r
  else if isConcrete r then
    c <- getConcrete r ;; ret (concrete_subst c IFS)
  else if isPack r then
    p <- getPack r ;; ret (pack_subst p IFS)
  else
    ASSERT (isAbstract r) "isAbstract()" ;;;
    proto <- getProtocol r ;;
    (* an opaque archetype stays abstract unless opaque types are substituted *)
    if isNonNull (getAs_OpaqueTypeArchetypeType origType)
       && negb (shouldSubstituteOpaqueArchetypes IFS)
    then ret (forAbstract (Type_subst origType IFS) proto)
    else
      let substType := Type_subst origType IFS in
      (* an existential must be self-conforming *)
      if isExistentialType substType then
        optConformance <- call_lookupConformance substType proto true ;;
        if operator_bool optConformance then ret optConformance
        else ret forInvalid
      else
        (* local conformance lookup into the substitution map *)
        call_IFS_lookupConformance IFS (getCanonicalType origType) substType
          proto 0.

(** The [failed] closure of [getTypeWitness]. *)
Definition failed (conformingType : TypeBase) (assocType : AssociatedTypeDecl)
  : Ty :=
  Some (DependentMemberType_get (ErrorType_get_original conformingType) assocType).

(** [ProtocolConformanceRef::getTypeWitness] *)
Definition getTypeWitness (r : ProtocolConformanceRef)
  (conformingType : TypeBase) (assocType : AssociatedTypeDecl)
  (options : SubstOptions) : Exec Ty :=
  if isPack r then
    pack <- getPack r ;;
    ASSERT (isEqual conformingType (pack_getType pack))
      "conformingType->isEqual(pack->getType())" ;;;
    ret (pack_getTypeWitness pack assocType)
  else if isInvalid r then ret (failed conformingType assocType)
  else
    proto <- getProtocol r ;;
    ASSERT (ProtocolDecl_eqb (assoc_getProtocol assocType) proto)
      "assocType->getProtocol() == proto" ;;;
    if isConcrete r then
      c <- getConcrete r ;;
      let witnessType := concrete_getTypeWitness c assocType options in
      match witnessType with
      | None => ret (failed conformingType assocType)
      | Some w =>
          if is_ErrorType w then ret (failed conformingType assocType)
          else ret witnessType
      end
    else
      ASSERT (isAbstract r) "isAbstract()" ;;;
      match getAs_ArchetypeType conformingType with
      | Some archetypeType => ret (getNestedType archetypeType assocType)
      | None =>
          ASSERT (isTypeParameter conformingType
                  || isTypeVariableOrMember conformingType
                  || is_UnresolvedType conformingType
                  || is_PlaceholderType conformingType)
            "conformingType is a type parameter, type variable, unresolved or placeholder" ;;;
          ret (Some (DependentMemberType_get conformingType assocType))
      end.

(** [ProtocolConformanceRef::getTypeWitnessByName] *)
Definition getTypeWitnessByName (r : ProtocolConformanceRef) (type : TypeBase)
  (name : Identifier) : Exec Ty :=
  ASSERT (negb (isInvalid r)) "!isInvalid()" ;;;
  proto <- getProtocol r ;;
  match ProtocolDecl_getAssociatedType proto name with
  | None => ret (Some ErrorType_get)
  | Some assocType => getTypeWitness r type assocType []
  end.

(** [ProtocolConformanceRef::getWitnessByName] *)
Definition getWitnessByName (r : ProtocolConformanceRef) (type : TypeBase)
  (name : DeclName) : Exec ConcreteDeclRef :=
  proto <- getProtocol r ;;
  match ProtocolDecl_getSingleRequirement proto name with
  | None => ret None
  | Some requirement =>
      if negb (isConcrete r) then
        let subs := getProtocolSubstitutions proto type r in
        ret (Some (requirement, subs))
      else
        c <- getConcrete r ;; ret (concrete_getWitnessDeclRef c requirement)
  end.

(** [ProtocolConformanceRef::getAssociatedType] *)
Definition getAssociatedType (r : ProtocolConformanceRef)
  (conformingType assocType : TypeBase) : Exec Ty :=
  if isInvalid r then ret (Some ErrorType_get)
  else
    proto <- getProtocol r ;;
    let substMap := getProtocolSubstitutions proto conformingType r in
    ret (Type_subst_map assocType substMap).

(** The [computeSubjectType] closure of [getAssociatedConformance]. *)
Definition computeSubjectType (assocType conformingType : TypeBase) : TypeBase :=
  transformRec assocType
    (fun t => if isa_GenericTypeParamType t then Some conformingType else None).

(** [ProtocolConformanceRef::getAssociatedConformance] *)
Definition getAssociatedConformance (r : ProtocolConformanceRef)
  (conformingType assocType : TypeBase) (protocol : ProtocolDecl)
  : Exec ProtocolConformanceRef :=
  if isPack r then
    pack <- getPack r ;;
    ASSERT (isEqual conformingType (pack_getType pack))
      "conformingType->isEqual(pack->getType())" ;;;
    ret (PackRef (pack_getAssociatedConformance pack assocType protocol))
  else if isConcrete r then
    conformance <- getConcrete r ;;
    ASSERT (isEqual (concrete_getType conformance) conformingType)
      "conformance->getType()->isEqual(conformingType)" ;;;
    ret (concrete_getAssociatedConformance conformance assocType protocol)
  else
    match getAs_ArchetypeType conformingType with
    | Some archetypeType =>
        let genericEnv := getGenericEnvironment archetypeType in
        let subjectType :=
          computeSubjectType assocType (getInterfaceType archetypeType) in
        call_lookupConformance (mapTypeIntoContext genericEnv subjectType)
          protocol false
    | None =>
        let subjectType := computeSubjectType assocType conformingType in
        ret (forAbstract subjectType protocol)
    end.

(** [ProtocolConformanceRef::isCanonical] *)
Definition isCanonical (r : ProtocolConformanceRef) : Exec bool :=
  if isInvalid r then ret true
  else if isPack r then
    p <- getPack r ;; ret (pack_isCanonical p)
  else if isAbstract r then
    t <- getType r ;; tb <- deref t ;; ret (TypeBase_isCanonical tb)
  else
    c <- getConcrete r ;; ret (concrete_isCanonical c).

(** [ProtocolConformanceRef::getCanonicalConformanceRef] *)
Definition getCanonicalConformanceRef (r : ProtocolConformanceRef)
  : Exec ProtocolConformanceRef :=
  if isInvalid r then ret r
  else if isPack r then
    p <- getPack r ;; ret (PackRef (pack_getCanonicalConformance p))
  else if isAbstract r then
    t <- getType r ;; tb <- deref t ;;
    proto <- getProtocol r ;;
    ret (forAbstract (getCanonicalType tb) proto)
  else
    c <- getConcrete r ;; ret (ConcreteRef (concrete_getCanonicalConformance c)).

(** *** Missing conformances

    The visitor is a closure: it sees a builtin conformance and its own
    captured state, answers whether to stop, and leaves a new state.  The
    traversal threads that state together with the list of conformances it
    has handed to the visitor so far. *)
Definition Visitor (S : Type) : Type :=
  BuiltinProtocolConformance -> S -> bool * S.

Definition Visit (S : Type) : Type := (S * list BuiltinProtocolConformance)%type.

Definition call_fn {S} (fn : Visitor S) (b : BuiltinProtocolConformance)
  (st : Visit S) : bool * Visit S :=
  let (stop, s') := fn b (fst st) in (stop, (s', snd st ++ [b])).

(** [for (auto conformance : list) if (conformance.f(fn)) return true;
     return false;] *)
Fixpoint anyOf {S} (f : ProtocolConformanceRef -> Visit S -> bool * Visit S)
  (l : list ProtocolConformanceRef) (st : Visit S) : bool * Visit S :=
  match l with
  | [] => (false, st)
  | conformance :: rest =>
      let (stop, st') := f conformance st in
      if stop then (true, st') else anyOf f rest st'
  end.

(** [ProtocolConformanceRef::forEachMissingConformance] *)
Fixpoint forEachMissingConformance {S} (fn : Visitor S)
  (r : ProtocolConformanceRef) (st : Visit S) {struct r} : bool * Visit S :=
  if isInvalid r || isAbstract r then (false, st)
  else
    match r with
    | PackRef pack =>
        anyOf (forEachMissingConformance fn) (getPatternConformances pack) st
    | ConcreteRef concreteConf =>
        (* is this a missing conformance? *)
        let (stop, st1) :=
          match getRootConformance concreteConf with
          | RootBuiltin builtinConformance =>
              if isMissing builtinConformance
              then call_fn fn builtinConformance st
              else (false, st)
          | _ => (false, st)
          end in
        if stop then (true, st1)
        else
          (* conformances that are part of this conformance *)
          anyOf (forEachMissingConformance fn)
            (getSubstitutionMapConformances concreteConf) st1
    | _ => (false, st)   (* not reached: neither invalid nor abstract *)
    end.

(** [ProtocolConformanceRef::hasMissingConformance]: the visitor
    [[](BuiltinProtocolConformance *builtin) { return true; }]. *)
Definition hasMissingConformance (r : ProtocolConformanceRef) : bool :=
  fst (forEachMissingConformance (fun _ (s : unit) => (true, s)) r (tt, [])).

(** The conformances a traversal handed to its visitor. *)
Definition visited {S} (fn : Visitor S) (r : ProtocolConformanceRef) (s : S)
  : list BuiltinProtocolConformance :=
  snd (snd (forEachMissingConformance fn r (s, []))).

(** *** What canonicalization relies on

    [getCanonicalConformanceRef] delegates to [Type::getCanonicalType],
    [ProtocolConformance::getCanonicalConformance] and
    [PackConformance::getCanonicalConformance].  These are the properties of
    the three that the reference-level statements rest on: each is
    idempotent, and each leaves alone what its [isCanonical] accepts. *)
Record CanonicalizationLaws : Prop := {
  getCanonicalType_idempotent :
    forall t, getCanonicalType (getCanonicalType t) = getCanonicalType t;
  getCanonicalType_fixes_canonical :
    forall t, TypeBase_isCanonical t = true -> getCanonicalType t = t;
  concrete_canonical_idempotent :
    forall c, concrete_getCanonicalConformance (concrete_getCanonicalConformance c)
              = concrete_getCanonicalConformance c;
  concrete_canonical_fixes_canonical :
    forall c, concrete_isCanonical c = true ->
              concrete_getCanonicalConformance c = c;
  pack_canonical_idempotent :
    forall p, pack_getCanonicalConformance (pack_getCanonicalConformance p)
              = pack_getCanonicalConformance p;
  pack_canonical_fixes_canonical :
    forall p, pack_isCanonical p = true -> pack_getCanonicalConformance p = p
}.

(** *** Vocabulary for the statements about missing conformances *)

(** [r] is a concrete conformance whose root is the missing builtin [b]. *)
Definition isMissingConformance (r : ProtocolConformanceRef)
  (b : BuiltinProtocolConformance) : Prop :=
  exists c, r = ConcreteRef c /\ getRootConformance c = RootBuiltin b
            /\ isMissing b = true.

(** One level of nesting: an entry of a concrete conformance's substitution
    map, or an element of a pack conformance that is not invalid. *)
Inductive contains : ProtocolConformanceRef -> ProtocolConformanceRef -> Prop :=
| contains_subMap (c : ProtocolConformance) (r : ProtocolConformanceRef) :
    In r (getSubstitutionMapConformances c) -> contains (ConcreteRef c) r
| contains_pattern (p : PackConformance) (r : ProtocolConformanceRef) :
    pack_isInvalid p = false ->
    In r (getPatternConformances p) -> contains (PackRef p) r.

(** Nesting at any depth, starting in a substitution map. *)
Inductive nested : ProtocolConformanceRef -> ProtocolConformanceRef -> Prop :=
| nested_direct (c : ProtocolConformance) (r : ProtocolConformanceRef) :
    In r (getSubstitutionMapConformances c) -> nested (ConcreteRef c) r
| nested_deeper (r r1 r' : ProtocolConformanceRef) :
    nested r r1 -> contains r1 r' -> nested r r'.

(** All missing builtin conformances the traversal can reach, in the order
    it reaches them. *)
Fixpoint missingConformances (r : ProtocolConformanceRef)
  : list BuiltinProtocolConformance :=
  if isInvalid r || isAbstract r then []
  else
    match r with
    | PackRef pack => flat_map missingConformances (getPatternConformances pack)
    | ConcreteRef concreteConf =>
        match getRootConformance concreteConf with
        | RootBuiltin b => if isMissing b then [b] else []
        | _ => []
        end
        ++ flat_map missingConformances
             (getSubstitutionMapConformances concreteConf)
    | _ => []
    end.

(** Handing a list of conformances to the visitor until it asks to stop. *)
Fixpoint visitUntil {S} (fn : Visitor S) (l : list BuiltinProtocolConformance)
  (st : Visit S) : bool * Visit S :=
  match l with
  | [] => (false, st)
  | b :: rest =>
      let (stop, st') := call_fn fn b st in
      if stop then (true, st') else visitUntil fn rest st'
  end.

End Ref.

(** ** A small type graph

    A concrete instance of the two interfaces, used to run the functions
    above on explicit inputs. *)

Module Toy.

Inductive ToyType : Type :=
| Nominal (name : string)
| GenericTypeParam (depth index : nat)
| PrimaryArchetype (env : nat) (interface : ToyType)
| OpaqueArchetype (decl : string)
| Existential (proto : ProtocolDecl)
| TypeVariable (id : nat)
| Unresolved
| Placeholder
| Error
| ErrorOf (original : ToyType)
| DependentMember (base : ToyType) (assoc : AssociatedTypeDecl)
| TypeAlias (name : string) (underlying : ToyType).

Definition AssociatedTypeDecl_eq_dec (a b : AssociatedTypeDecl) : {a = b} + {a <> b}.
Proof. decide equality; apply string_dec. Defined.

Definition ToyType_eq_dec (a b : ToyType) : {a = b} + {a <> b}.
Proof.
  decide equality;
    try apply string_dec; try apply Nat.eq_dec;
    apply AssociatedTypeDecl_eq_dec.
Defined.

(** Sugar is a chain of aliases; the desugared type is below it. *)
Fixpoint desugar (t : ToyType) : ToyType :=
  match t with
  | TypeAlias _ u => desugar u
  | _ => t
  end.

Fixpoint canonical (t : ToyType) : ToyType :=
  match t with
  | TypeAlias _ u => canonical u
  | PrimaryArchetype e i => PrimaryArchetype e (canonical i)
  | ErrorOf o => ErrorOf (canonical o)
  | DependentMember b a => DependentMember (canonical b) a
  | _ => t
  end.

Fixpoint sugarFree (t : ToyType) : bool :=
  match t with
  | TypeAlias _ _ => false
  | PrimaryArchetype _ i => sugarFree i
  | ErrorOf o => sugarFree o
  | DependentMember b _ => sugarFree b
  | _ => true
  end.

Definition asOpaque (t : ToyType) : option ToyType :=
  match desugar t with
  | OpaqueArchetype d => Some (OpaqueArchetype d)
  | _ => None
  end.

Definition asArchetype (t : ToyType) : option ToyType :=
  match desugar t with
  | OpaqueArchetype d => Some (OpaqueArchetype d)
  | PrimaryArchetype e i => Some (PrimaryArchetype e i)
  | _ => None
  end.

Fixpoint typeParameter (t : ToyType) : bool :=
  match t with
  | TypeAlias _ u => typeParameter u
  | GenericTypeParam _ _ => true
  | DependentMember b _ => typeParameter b
  | _ => false
  end.

Fixpoint typeVariableOrMember (t : ToyType) : bool :=
  match t with
  | TypeAlias _ u => typeVariableOrMember u
  | TypeVariable _ => true
  | DependentMember b _ => typeVariableOrMember b
  | _ => false
  end.

Definition nestedType (archetype : ToyType) (assoc : AssociatedTypeDecl)
  : option ToyType :=
  match archetype with
  | PrimaryArchetype e i => Some (PrimaryArchetype e (DependentMember i assoc))
  | _ => Some (DependentMember archetype assoc)
  end.

Fixpoint transform (t : ToyType) (f : ToyType -> option ToyType) : ToyType :=
  match f t with
  | Some r => r
  | None =>
      match t with
      | PrimaryArchetype e i => PrimaryArchetype e (transform i f)
      | ErrorOf o => ErrorOf (transform o f)
      | DependentMember b a => DependentMember (transform b f) a
      | TypeAlias n u => TypeAlias n (transform u f)
      | _ => t
      end
  end.

Definition intoContext (env : nat) (t : ToyType) : ToyType :=
  if typeParameter t then PrimaryArchetype env t else t.

Definition Element : AssociatedTypeDecl := mkAssociatedTypeDecl "Element" "Collection".
Definition Iterator : AssociatedTypeDecl := mkAssociatedTypeDecl "Iterator" "Sequence".

Definition associatedTypeNamed (p : ProtocolDecl) (name : Identifier)
  : option AssociatedTypeDecl :=
  if String.eqb p "Collection" && String.eqb name "Element" then Some Element
  else if String.eqb p "Sequence" && String.eqb name "Iterator" then Some Iterator
  else None.

Definition singleRequirement (p : ProtocolDecl) (name : DeclName)
  : option ValueDecl :=
  if String.eqb p "Equatable" && String.eqb name "==" then Some "Equatable.=="
  else None.

#[export] Instance types : TypeGraph := {|
  TypeBase := ToyType;
  GenericEnvironment := nat;
  getAs_OpaqueTypeArchetypeType := asOpaque;
  getAs_ArchetypeType := asArchetype;
  isa_GenericTypeParamType :=
    fun t => match t with GenericTypeParam _ _ => true | _ => false end;
  is_ErrorType :=
    fun t => match desugar t with Error | ErrorOf _ => true | _ => false end;
  is_UnresolvedType :=
    fun t => match desugar t with Unresolved => true | _ => false end;
  is_PlaceholderType :=
    fun t => match desugar t with Placeholder => true | _ => false end;
  isTypeParameter := typeParameter;
  isTypeVariableOrMember := typeVariableOrMember;
  isExistentialType :=
    fun t => match canonical t with Existential _ => true | _ => false end;
  isEqual :=
    fun a b => if ToyType_eq_dec (canonical a) (canonical b) then true else false;
  TypeBase_isCanonical := sugarFree;
  getCanonicalType := canonical;
  ErrorType_get := Error;
  ErrorType_get_original := ErrorOf;
  DependentMemberType_get := DependentMember;
  getNestedType := nestedType;
  getGenericEnvironment :=
    fun t => match t with PrimaryArchetype e _ => e | _ => 0 end;
  getInterfaceType :=
    fun t => match t with PrimaryArchetype _ i => i | _ => t end;
  mapTypeIntoContext := intoContext;
  transformRec := transform;
  ProtocolDecl_getAssociatedType := associatedTypeNamed;
  ProtocolDecl_getSingleRequirement := singleRequirement
|}.

Definition Ref : Type := @ProtocolConformanceRef types.

(** The conformance table of the toy program: [Int] is [Equatable] and
    [Hashable], [any Error] conforms to [Error]; a lookup that allows
    missing conformances gets a missing builtin conformance to [Sendable]. *)
Definition missingSendable : BuiltinProtocolConformance :=
  mkBuiltinProtocolConformance 0 true.

Definition lookup (ty : ToyType) (proto : ProtocolDecl) (allowMissing : bool)
  : Ref :=
  match canonical ty with
  | Nominal "Int" =>
      if String.eqb proto "Equatable" || String.eqb proto "Hashable"
      then ConcreteRef (mkProtocolConformance (Nominal "Int") proto RootNormal [])
      else NullRef
  | Existential "Error" =>
      if String.eqb proto "Error"
      then ConcreteRef (mkProtocolConformance (Existential "Error") proto RootSelf [])
      else NullRef
  | t =>
      if allowMissing && String.eqb proto "Sendable"
      then ConcreteRef (mkProtocolConformance t proto (RootBuiltin missingSendable) [])
      else NullRef
  end.

(** Type substitution: a type the replacement function maps is replaced,
    any other type is rebuilt from its substituted parts.  An opaque
    archetype is replaced only when the context substitutes opaque
    archetypes. *)
Definition substType (t : ToyType) (IFS : @InFlightSubstitution types) : ToyType :=
  transform t
    (fun u =>
       match u with
       | OpaqueArchetype _ =>
           if shouldSubstituteOpaqueArchetypes IFS then BaselineSubstType IFS u
           else None
       | _ => BaselineSubstType IFS u
       end).

Definition firstReplacement (t : ToyType) (m : @SubstitutionMap types) : option ToyType :=
  match getReplacementTypes m with
  | self :: _ =>
      Some (transform t (fun u => match u with
                                  | GenericTypeParam _ _ => Some self
                                  | _ => None
                                  end))
  | [] => None
  end.

Definition witnessTable (c : @ProtocolConformance types)
  (assoc : AssociatedTypeDecl) (_ : SubstOptions) : option ToyType :=
  match canonical (concrete_getType c) with
  | Nominal "Array" =>
      if String.eqb (assoc_name assoc) "Element"
      then Some (GenericTypeParam 0 0) else None
  | Nominal "Broken" => Some Error
  | _ => None
  end.

Definition isNull (r : Ref) : bool :=
  match r with NullRef => true | _ => false end.

Definition canonicalConcrete (c : @ProtocolConformance types)
  : @ProtocolConformance types :=
  match c with
  | mkProtocolConformance ty proto root subs =>
      mkProtocolConformance (canonical ty) proto root subs
  end.

Definition canonicalPack (p : @PackConformance types) : @PackConformance types :=
  match p with
  | mkPackConformance ty proto pats => mkPackConformance (canonical ty) proto pats
  end.

#[export] Instance collaborators : @Collaborators types := {|
  lookupConformance := lookup;
  Type_subst := substType;
  Type_subst_map := firstReplacement;
  getProtocolSubstitutions :=
    fun _ self conformance => mkSubstitutionMap [self] [conformance];
  concrete_subst :=
    fun c IFS =>
      match c with
      | mkProtocolConformance ty proto root subs =>
          ConcreteRef (mkProtocolConformance (substType ty IFS) proto root subs)
      end;
  concrete_getTypeWitness := witnessTable;
  concrete_getAssociatedConformance :=
    fun c assocType protocol => lookup assocType protocol false;
  concrete_getWitnessDeclRef :=
    fun c requirement => Some (requirement, mkSubstitutionMap [] []);
  concrete_isCanonical := fun c => sugarFree (concrete_getType c);
  concrete_getCanonicalConformance := canonicalConcrete;
  pack_isInvalid := fun p => existsb isNull (getPatternConformances p);
  pack_subst :=
    fun p IFS =>
      match p with
      | mkPackConformance ty proto pats =>
          PackRef (mkPackConformance (substType ty IFS) proto pats)
      end;
  pack_getTypeWitness := fun p assoc => None;
  pack_getAssociatedConformance := fun p _ _ => p;
  pack_isCanonical := fun p => sugarFree (pack_getType p);
  pack_getCanonicalConformance := canonicalPack
|}.

(** Some inputs. *)
Definition Int : ToyType := Nominal "Int".
Definition T : ToyType := GenericTypeParam 0 0.
Definition someP : ToyType := OpaqueArchetype "f()".
Definition anyP : ToyType := Existential "P".

Definition abstractT_P : Ref := AbstractRef (mkAbstractConformance T "P").
Definition abstractOpaque_P : Ref := AbstractRef (mkAbstractConformance someP "P").

(** A substitution context that substitutes opaque archetypes, replacing
    them by [any Error]. *)
Definition opaqueToAnyError : @InFlightSubstitution types :=
  mkInFlightSubstitution
    (fun t => match t with
              | OpaqueArchetype _ => Some (Existential "Error")
              | _ => None
              end)
    (fun _ substType proto _ => forAbstract substType proto)
    true.

Definition abstractT_Error : Ref := AbstractRef (mkAbstractConformance T "Error").

(** The identity substitution context. *)
Definition identitySubstitution : @InFlightSubstitution types :=
  mkInFlightSubstitution
    (fun _ => None)
    (fun _ substType proto _ => forAbstract substType proto)
    false.

(** [T -> any Error]. *)
Definition toAnyError : @InFlightSubstitution types :=
  mkInFlightSubstitution
    (fun t => match t with GenericTypeParam _ _ => Some (Existential "Error") | _ => None end)
    (fun _ substType proto _ => forAbstract substType proto)
    false.

Definition missingConformance : Ref :=
  ConcreteRef (mkProtocolConformance Int "Sendable" (RootBuiltin missingSendable) []).

Definition arrayOfInt_Sendable : @ProtocolConformance types :=
  mkProtocolConformance (Nominal "Array") "Sendable" RootNormal [missingConformance].

Definition dictionary_Sendable : @ProtocolConformance types :=
  mkProtocolConformance (Nominal "Dictionary") "Sendable" RootNormal
    [ConcreteRef (mkProtocolConformance Int "Sendable" RootNormal []);
     ConcreteRef arrayOfInt_Sendable].

Definition invalidPack : @PackConformance types :=
  mkPackConformance (Nominal "Pack") "P" [missingConformance; NullRef].

(** [Outer<each Pack>: Sendable], whose substitution map holds the invalid
    pack [(missing, null)]. *)
Definition outer_Sendable : @ProtocolConformance types :=
  mkProtocolConformance (Nominal "Outer") "Sendable" RootNormal
    [PackRef invalidPack].

Definition array_Collection : @ProtocolConformance types :=
  mkProtocolConformance (Nominal "Array") "Collection" RootNormal [].

Definition broken_Collection : @ProtocolConformance types :=
  mkProtocolConformance (Nominal "Broken") "Collection" RootNormal [].

Definition aliasedT_P : Ref :=
  AbstractRef (mkAbstractConformance (TypeAlias "Index" T) "P").

Definition abstractT_Collection : Ref :=
  AbstractRef (mkAbstractConformance T "Collection").

End Toy.

(** * The rest of the file

    The functions of ProtocolConformanceRef.cpp not modelled above: the
    conversion out of a generic context and the two other traversals.  They
    read a little more of the payload classes, collected in
    [TraversalCollaborators]. *)

(** The declaration context of a root conformance, as far as
    [dyn_cast<ExtensionDecl>(dc)] and [ext->isUnavailable()] look at it. *)
Inductive DeclContext : Type :=
| ExtensionDecl (isUnavailable : bool)
| OtherDeclContext.

(** The function objects [mapConformanceOutOfContext] passes to [subst]. *)
Inductive TypeSubstitutionFn : Type := MapTypeOutOfContext.
Inductive LookupConformanceFn : Type := MakeAbstractConformanceForGenericType.

Class TraversalCollaborators {TG : TypeGraph} : Type := {
  (* concrete->getRootConformance()->getDeclContext() *)
  getRootDeclContext : ProtocolConformance -> DeclContext;
  (* isIsolated() of the normal root conformance of a concrete conformance *)
  normal_isIsolated : ProtocolConformance -> bool;
  (* TypeBase::mapTypeOutOfContext *)
  mapTypeOutOfContext : TypeBase -> TypeBase;
  (* subst(TypeSubstitutionFn, LookupConformanceFn, SubstOptions) *)
  concrete_subst_fn :
    ProtocolConformance -> TypeSubstitutionFn -> LookupConformanceFn ->
    SubstOptions -> ProtocolConformanceRef;
  pack_subst_fn :
    PackConformance -> TypeSubstitutionFn -> LookupConformanceFn ->
    SubstOptions -> ProtocolConformanceRef
}.

Section Rest.
Context {TG : TypeGraph} {CS : Collaborators} {TC : TraversalCollaborators}.

(** [ProtocolConformanceRef::mapConformanceOutOfContext] *)
Definition mapConformanceOutOfContext (r : ProtocolConformanceRef)
  : Exec ProtocolConformanceRef :=
  if isConcrete r then
    c <- getConcrete r ;;
    ret (concrete_subst_fn c MapTypeOutOfContext
           MakeAbstractConformanceForGenericType
           [PreservePackExpansionLevel; SubstitutePrimaryArchetypes])
  else if isPack r then
    p <- getPack r ;;
    ret (pack_subst_fn p MapTypeOutOfContext
           MakeAbstractConformanceForGenericType
           [PreservePackExpansionLevel; SubstitutePrimaryArchetypes])
  else if isAbstract r then
    abstract <- getAbstract r ;;
    ret (forAbstract (mapTypeOutOfContext (abstract_getType abstract))
           (abstract_getProtocol abstract))
  else ret r.

(** [ProtocolConformanceRef::hasUnavailableConformance] *)
Fixpoint hasUnavailableConformance (r : ProtocolConformanceRef) : bool :=
  if isInvalid r || isAbstract r then false
  else
    match r with
    | PackRef pack =>
        existsb hasUnavailableConformance (getPatternConformances pack)
    | ConcreteRef concrete =>
        (* is this conformance on an unavailable extension? *)
        let dc := getRootDeclContext concrete in
        if match dc with
           | ExtensionDecl unavailable => unavailable
           | OtherDeclContext => false
           end
        then true
        else
          (* the conformances in the substitution map *)
          existsb hasUnavailableConformance
            (getSubstitutionMapConformances concrete)
    | _ => false   (* not reached: neither invalid nor abstract *)
    end.

(** The visitor of [forEachIsolatedConformance] is a closure over conformance
    references; the traversal threads its state and the list of references
    handed to it. *)
Definition RefVisitor (S : Type) : Type :=
  ProtocolConformanceRef -> S -> bool * S.

Definition RefVisit (S : Type) : Type := (S * list ProtocolConformanceRef)%type.

Definition call_body {S} (body : RefVisitor S) (r : ProtocolConformanceRef)
  (st : RefVisit S) : bool * RefVisit S :=
  let (stop, s') := body r (fst st) in (stop, (s', snd st ++ [r])).

Fixpoint anyOfRef {S}
  (f : ProtocolConformanceRef -> RefVisit S -> bool * RefVisit S)
  (l : list ProtocolConformanceRef) (st : RefVisit S) : bool * RefVisit S :=
  match l with
  | [] => (false, st)
  | conformance :: rest =>
      let (stop, st') := f conformance st in
      if stop then (true, st') else anyOfRef f rest st'
  end.

(** [ProtocolConformanceRef::forEachIsolatedConformance] *)
Fixpoint forEachIsolatedConformance {S} (body : RefVisitor S)
  (r : ProtocolConformanceRef) (st : RefVisit S) {struct r} : bool * RefVisit S :=
  if isInvalid r || isAbstract r then (false, st)
  else
    match r with
    | PackRef pack =>
        anyOfRef (forEachIsolatedConformance body) (getPatternConformances pack) st
    | ConcreteRef concrete =>
        (* is this an isolated conformance? *)
        let (stop, st1) :=
          match getRootConformance concrete with
          | RootNormal =>
              if normal_isIsolated concrete then call_body body r st
              else (false, st)
          | _ => (false, st)
          end in
        if stop then (true, st1)
        else
          (* conformances that are part of this conformance *)
          anyOfRef (forEachIsolatedConformance body)
            (getSubstitutionMapConformances concrete) st1
    | _ => (false, st)   (* not reached: neither invalid nor abstract *)
    end.

(** The references a traversal handed to its visitor. *)
Definition visitedIsolated {S} (body : RefVisitor S)
  (r : ProtocolConformanceRef) (s : S) : list ProtocolConformanceRef :=
  snd (snd (forEachIsolatedConformance body r (s, []))).

(** *** Vocabulary for the statements about the traversals *)

(** [r'] is [r] itself or nested in it at some depth, through substitution
    maps and through the elements of packs that are not invalid. *)
Inductive reaches : ProtocolConformanceRef -> ProtocolConformanceRef -> Prop :=
| reaches_here (r : ProtocolConformanceRef) : reaches r r
| reaches_step (r r1 r' : ProtocolConformanceRef) :
    contains r r1 -> reaches r1 r' -> reaches r r'.

(** [r] is a concrete conformance whose root is a normal conformance marked
    isolated. *)
Definition isIsolatedConformance (r : ProtocolConformanceRef) : Prop :=
  exists c, r = ConcreteRef c /\ getRootConformance c = RootNormal
            /\ normal_isIsolated c = true.

(** [r] is a concrete conformance declared on an unavailable extension. *)
Definition isUnavailableConformance (r : ProtocolConformanceRef) : Prop :=
  exists c, r = ConcreteRef c /\ getRootDeclContext c = ExtensionDecl true.

(** All isolated conformances the traversal can reach, in the order it
    reaches them. *)
Fixpoint isolatedConformances (r : ProtocolConformanceRef)
  : list ProtocolConformanceRef :=
  if isInvalid r || isAbstract r then []
  else
    match r with
    | PackRef pack => flat_map isolatedConformances (getPatternConformances pack)
    | ConcreteRef concrete =>
        match getRootConformance concrete with
        | RootNormal => if normal_isIsolated concrete then [r] else []
        | _ => []
        end
        ++ flat_map isolatedConformances
             (getSubstitutionMapConformances concrete)
    | _ => []
    end.

Fixpoint visitUntilRef {S} (body : RefVisitor S)
  (l : list ProtocolConformanceRef) (st : RefVisit S) : bool * RefVisit S :=
  match l with
  | [] => (false, st)
  | r :: rest =>
      let (stop, st') := call_body body r st in
      if stop then (true, st') else visitUntilRef body rest st'
  end.

(** What the statement "the canonical form is canonical" relies on: the
    three canonicalizations produce what their [isCanonical] accepts. *)
Record CanonicalFormLaws : Prop := {
  getCanonicalType_isCanonical :
    forall t, TypeBase_isCanonical (getCanonicalType t) = true;
  concrete_canonical_isCanonical :
    forall c, concrete_isCanonical (concrete_getCanonicalConformance c) = true;
  pack_canonical_isCanonical :
    forall p, pack_isCanonical (pack_getCanonicalConformance p) = true
}.

End Rest.

(** The toy graph, continued. *)
Module ToyRest.
Import Toy.

Definition outOfContext (t : ToyType) : ToyType :=
  transform t (fun u => match u with
                        | PrimaryArchetype _ i => Some i
                        | _ => None
                        end).

(** Conformances of [Legacy] are declared on an unavailable extension;
    conformances of [View] are isolated. *)
#[export] Instance traversal : @TraversalCollaborators types := {|
  getRootDeclContext :=
    fun c => match canonical (concrete_getType c) with
             | Nominal "Legacy" => ExtensionDecl true
             | Nominal "Int" => ExtensionDecl false
             | _ => OtherDeclContext
             end;
  normal_isIsolated :=
    fun c => match canonical (concrete_getType c) with
             | Nominal "View" => true
             | _ => false
             end;
  mapTypeOutOfContext := outOfContext;
  concrete_subst_fn :=
    fun c _ _ _ =>
      match c with
      | mkProtocolConformance ty proto root subs =>
          ConcreteRef (mkProtocolConformance (outOfContext ty) proto root subs)
      end;
  pack_subst_fn :=
    fun p _ _ _ =>
      match p with
      | mkPackConformance ty proto pats =>
          PackRef (mkPackConformance (outOfContext ty) proto pats)
      end
|}.

Definition legacy_P : Ref :=
  ConcreteRef (mkProtocolConformance (Nominal "Legacy") "P" RootNormal []).

Definition view_P : Ref :=
  ConcreteRef (mkProtocolConformance (Nominal "View") "P" RootNormal []).

Definition int_P : Ref :=
  ConcreteRef (mkProtocolConformance Int "P" RootNormal []).

(** [Box<Legacy, View>: P], with both conformances in its substitution map. *)
Definition box_P : Ref :=
  ConcreteRef (mkProtocolConformance (Nominal "Box") "P" RootNormal
                 [int_P; legacy_P; view_P]).

(** A valid pack of [Int: P] and [Box: P]. *)
Definition validPack : @PackConformance types :=
  mkPackConformance (Nominal "Pack") "P" [int_P; box_P].

Definition archetypeT_P : Ref :=
  AbstractRef (mkAbstractConformance (PrimaryArchetype 1 T) "P").

(** [T -> Int], with a local lookup that knows [Int: Equatable]. *)
Definition toInt : @InFlightSubstitution types :=
  mkInFlightSubstitution
    (fun t => match t with GenericTypeParam _ _ => Some Int | _ => None end)
    (fun _ substType proto _ => lookup substType proto false)
    false.

Definition abstractT_Equatable : Ref :=
  AbstractRef (mkAbstractConformance T "Equatable").

End ToyRest.

(** * FeatureSet.cpp: the features a declaration uses

    The declarations are read through the pointers the functions follow: a
    pointer field holds the declaration it points to, null is [None].  The
    feature table (swift/Basic/Features.def) and the bit sets of FeatureSet.h
    are not among the sources; they are the parameters [FeatureTable] and
    [FixedBitSet]. *)

Module FeatureSet.

Inductive AccessLevel : Type :=
| Private | FilePrivate | Internal | Package | Public | Open.

Definition AccessLevel_eqb (a b : AccessLevel) : bool :=
  match a, b with
  | Private, Private | FilePrivate, FilePrivate | Internal, Internal
  | Package, Package | Public, Public | Open, Open => true
  | _, _ => false
  end.

(** [AllowFeatureSuppressionAttr] *)
Record AllowFeatureSuppressionAttr : Type := mkAllowFeatureSuppressionAttr {
  getInverted : bool;
  getSuppressedFeatures : list Identifier
}.

(** A [DestructorDecl], as [usesFeatureIsolatedDeinit] reads it. *)
#[warnings="-register-all"] Inductive DestructorDecl : Type :=
| mkDestructorDecl (hasExplicitIsolationAttribute : bool)
    (getSuperDeinit : option DestructorDecl).

(** A declaration: what [dyn_cast] finds it to be, the two attributes the
    file asks for, and [getDeclContext()->getAsDecl()]. *)
#[warnings="-register-all"] Inductive Decl : Type :=
| mkDecl (shape : DeclShape) (abiAttr : option ABIAttr)
    (suppressionAttr : option AllowFeatureSuppressionAttr)
    (declContext : option Decl)
with DeclShape : Type :=
| PatternBindingDecl (anchoringVarDecls : list (option Decl))
| AccessorDecl (storage : Decl)
| ClassDecl (getFormalAccess : AccessLevel) (getDestructor : DestructorDecl)
| Destructor (dd : DestructorDecl)
| OtherDecl
with ABIAttr : Type :=
| mkABIAttr (abiDecl : option Decl).

Definition getShape (d : Decl) : DeclShape :=
  match d with mkDecl shape _ _ _ => shape end.
Definition getOwnABIAttr (d : Decl) : option ABIAttr :=
  match d with mkDecl _ abi _ _ => abi end.
Definition getSuppressionAttr (d : Decl) : option AllowFeatureSuppressionAttr :=
  match d with mkDecl _ _ attr _ => attr end.
Definition getDeclContextAsDecl (d : Decl) : option Decl :=
  match d with mkDecl _ _ _ dc => dc end.
Definition getABIDecl (a : ABIAttr) : option Decl :=
  match a with mkABIAttr d => d end.

(** [getABIAttr] *)
Fixpoint getABIAttr (decl : Decl) : option ABIAttr :=
  match decl with
  | mkDecl (PatternBindingDecl anchors) abi _ _ =>
      (fix entries (l : list (option Decl)) : option ABIAttr :=
         match l with
         | Some anchorVar :: _ => getABIAttr anchorVar
         | None :: rest => entries rest
         | [] => abi
         end) anchors
  | mkDecl _ abi _ _ => abi
  end.

(** [usesFeatureABIAttribute] *)
Definition usesFeatureABIAttribute (decl : Decl) : bool :=
  match getABIAttr decl with Some _ => true | None => false end.

(** [swift::usesFeatureIsolatedDeinit], on a destructor *)
Fixpoint usesFeatureIsolatedDeinit_destructor (dd : DestructorDecl) : bool :=
  match dd with
  | mkDestructorDecl explicitIsolation superDD =>
      if explicitIsolation then true
      else
        match superDD with
        | Some superDD => usesFeatureIsolatedDeinit_destructor superDD
        | None => false
        end
  end.

(** [swift::usesFeatureIsolatedDeinit]; its recursive calls are all on
    destructors. *)
Definition usesFeatureIsolatedDeinit (decl : Decl) : bool :=
  match getShape decl with
  | ClassDecl access dtor =>
      AccessLevel_eqb access Open && usesFeatureIsolatedDeinit_destructor dtor
  | Destructor dd => usesFeatureIsolatedDeinit_destructor dd
  | _ => false
  end.

(** [hasFeatureSuppressionAttribute] *)
Definition hasFeatureSuppressionAttribute (decl : Decl)
  (featureName : string) (inverted : bool) : bool :=
  match getSuppressionAttr decl with
  | None => false
  | Some attr =>
      if negb (Bool.eqb (getInverted attr) inverted) then false
      else existsb (fun suppressedFeature => String.eqb suppressedFeature featureName)
             (getSuppressedFeatures attr)
  end.

(** [disallowFeatureSuppression] *)
Definition disallowFeatureSuppression (featureName : string) (decl : Decl) : bool :=
  hasFeatureSuppressionAttribute decl featureName true.

(** [allowFeatureSuppression] *)
Definition allowFeatureSuppression (featureName : string) (decl : Decl) : bool :=
  hasFeatureSuppressionAttribute decl featureName false.

(** The bit sets of FeatureSet.h. *)
Class FixedBitSet : Type := {
  Bits : Type;
  noBits : Bits;                                   (* a default constructed set *)
  bits_insertOrRemove : Bits -> N -> bool -> Bits; (* insertOrRemove(i, shouldInsert) *)
  bits_contains : Bits -> N -> bool;
  (* FeatureSet::empty(), of the required and the suppressible set *)
  features_empty : Bits -> Bits -> bool
}.

(** What the statements below rely on of the bit sets. *)
Record FixedBitSetLaws {B : FixedBitSet} : Prop := {
  contains_noBits : forall i, bits_contains noBits i = false;
  contains_insert :
    forall s i j,
      bits_contains (bits_insertOrRemove s i true) j
      = (N.eqb i j || bits_contains s j);
  contains_remove :
    forall s i j,
      bits_contains (bits_insertOrRemove s i false) j
      = (negb (N.eqb i j) && bits_contains s j);
  empty_contains :
    forall r s, features_empty r s = true ->
                forall i, bits_contains r i = false /\ bits_contains s i = false
}.
Arguments FixedBitSetLaws B : clear implicits.

(** The three kinds of entry of Features.def that [collectFeaturesUsed]
    expands differently. *)
Inductive FeatureKind : Type :=
| LANGUAGE_FEATURE
| SUPPRESSIBLE_LANGUAGE_FEATURE
| CONDITIONALLY_SUPPRESSIBLE_LANGUAGE_FEATURE.

(** An entry of Features.def: the feature, its name, its kind, and the
    [usesFeature...] function of that name. *)
Record FeatureEntry : Type := mkFeatureEntry {
  feature : N;
  featureName : string;
  featureKind : FeatureKind;
  usesFeature : Decl -> bool
}.

Definition FeatureTable : Type := list FeatureEntry.

Inductive InsertOrRemove : Type := Insert | Remove.

Definition isInsert (operation : InsertOrRemove) : bool :=
  match operation with Insert => true | Remove => false end.

Section Features.
Context {B : FixedBitSet}.
Variable numFeatures : N.
Variable table : FeatureTable.

Record FeatureSet : Type := mkFeatureSet {
  required : Bits;
  suppressible : Bits
}.

Definition emptyFeatureSet : FeatureSet := mkFeatureSet noBits noBits.

Definition empty (features : FeatureSet) : bool :=
  features_empty (required features) (suppressible features).

(** [numFeatures() - size_t(feature)], in [size_t]. *)
Definition suppressibleIndex (f : N) : N :=
  ((numFeatures + 2 ^ 64 - f mod 2 ^ 64) mod 2 ^ 64)%N.

(** [FeatureSet::collectRequiredFeature] *)
Definition collectRequiredFeature (f : N) (operation : InsertOrRemove)
  (features : FeatureSet) : FeatureSet :=
  mkFeatureSet
    (bits_insertOrRemove (required features) f (isInsert operation))
    (suppressible features).

(** [FeatureSet::collectSuppressibleFeature] *)
Definition collectSuppressibleFeature (f : N) (operation : InsertOrRemove)
  (features : FeatureSet) : FeatureSet :=
  mkFeatureSet
    (required features)
    (bits_insertOrRemove (suppressible features) (suppressibleIndex f)
       (isInsert operation)).

(** The macros [CHECK] and [CHECK_ARG] of [collectFeaturesUsed]. *)
Definition CHECK (abiDecl : option Decl) (decl : Decl) (fn : Decl -> bool) : bool :=
  fn decl || match abiDecl with Some abi => fn abi | None => false end.

Definition CHECK_ARG (abiDecl : option Decl) (decl : Decl)
  (fn : string -> Decl -> bool) (arg : string) : bool :=
  fn arg decl || match abiDecl with Some abi => fn arg abi | None => false end.

(** One entry of the table, as its macro expands. *)
Definition collectEntry (abiDecl : option Decl) (decl : Decl)
  (operation : InsertOrRemove) (features : FeatureSet) (e : FeatureEntry)
  : FeatureSet :=
  if CHECK abiDecl decl (usesFeature e) then
    match featureKind e with
    | LANGUAGE_FEATURE => collectRequiredFeature (feature e) operation features
    | SUPPRESSIBLE_LANGUAGE_FEATURE =>
        if CHECK_ARG abiDecl decl disallowFeatureSuppression (featureName e)
        then collectRequiredFeature (feature e) operation features
        else collectSuppressibleFeature (feature e) operation features
    | CONDITIONALLY_SUPPRESSIBLE_LANGUAGE_FEATURE =>
        if CHECK_ARG abiDecl decl allowFeatureSuppression (featureName e)
        then collectSuppressibleFeature (feature e) operation features
        else collectRequiredFeature (feature e) operation features
    end
  else features.

(** [FeatureSet::collectFeaturesUsed] *)
Definition collectFeaturesUsed (decl : Decl) (operation : InsertOrRemove)
  (features : FeatureSet) : FeatureSet :=
  let abiDecl :=
    match getABIAttr decl with
    | Some abiAttr => getABIDecl abiAttr
    | None => None
    end in
  fold_left (collectEntry abiDecl decl operation) table features.

(** The loop of [getUniqueFeaturesUsed]: while the set is not empty, step to
    the next enclosing declaration and remove what it uses. *)
Fixpoint removeEnclosing (enclosingDecl : Decl) (features : FeatureSet)
  {struct enclosingDecl} : FeatureSet :=
  if empty features then features
  else
    match enclosingDecl with
    | mkDecl (AccessorDecl storage) _ _ _ =>
        removeEnclosing storage (collectFeaturesUsed storage Remove features)
    | mkDecl _ _ _ (Some outer) =>
        removeEnclosing outer (collectFeaturesUsed outer Remove features)
    | mkDecl _ _ _ None => features
    end.

(** [swift::getUniqueFeaturesUsed] *)
Definition getUniqueFeaturesUsed (decl : Decl) : FeatureSet :=
  let features := collectFeaturesUsed decl Insert emptyFeatureSet in
  removeEnclosing decl features.

(** *** Vocabulary *)

(** The next enclosing declaration: the storage of an accessor, otherwise
    the declaration of the context. *)
Definition nextEnclosing (decl : Decl) : option Decl :=
  match decl with
  | mkDecl (AccessorDecl storage) _ _ _ => Some storage
  | mkDecl _ _ _ dc => dc
  end.

(** The declarations enclosing a declaration, innermost first. *)
Fixpoint enclosingDecls (decl : Decl) : list Decl :=
  match decl with
  | mkDecl (AccessorDecl storage) _ _ _ => storage :: enclosingDecls storage
  | mkDecl _ _ _ (Some outer) => outer :: enclosingDecls outer
  | mkDecl _ _ _ None => []
  end.

(** Whether an entry that is used lands in the required set, and whether
    an entry sets or clears bit [j] of the required, or of the suppressible,
    set. *)
Definition goesRequired (abiDecl : option Decl) (decl : Decl) (e : FeatureEntry)
  : bool :=
  match featureKind e with
  | LANGUAGE_FEATURE => true
  | SUPPRESSIBLE_LANGUAGE_FEATURE =>
      CHECK_ARG abiDecl decl disallowFeatureSuppression (featureName e)
  | CONDITIONALLY_SUPPRESSIBLE_LANGUAGE_FEATURE =>
      negb (CHECK_ARG abiDecl decl allowFeatureSuppression (featureName e))
  end.

Definition requiredHit (abiDecl : option Decl) (decl : Decl) (j : N)
  (e : FeatureEntry) : bool :=
  CHECK abiDecl decl (usesFeature e) && goesRequired abiDecl decl e
  && N.eqb (feature e) j.

Definition suppressibleHit (abiDecl : option Decl) (decl : Decl) (j : N)
  (e : FeatureEntry) : bool :=
  CHECK abiDecl decl (usesFeature e) && negb (goesRequired abiDecl decl e)
  && N.eqb (suppressibleIndex (feature e)) j.

(** The features a declaration uses by itself, as [collectFeaturesUsed]
    inserts them into an empty set. *)
Definition featuresUsed (decl : Decl) : FeatureSet :=
  collectFeaturesUsed decl Insert emptyFeatureSet.

End Features.

(** The destructors above a destructor: itself, then its super deinit, and
    so on. *)
Inductive deinitChain : DestructorDecl -> DestructorDecl -> Prop :=
| deinitChain_here (dd : DestructorDecl) : deinitChain dd dd
| deinitChain_super (explicitIsolation : bool) (superDD dd : DestructorDecl) :
    deinitChain superDD dd ->
    deinitChain (mkDestructorDecl explicitIsolation (Some superDD)) dd.

Definition hasExplicitIsolation (dd : DestructorDecl) : bool :=
  match dd with mkDestructorDecl explicitIsolation _ => explicitIsolation end.

(** *** A bit set over [N], and a small program *)

#[export] Instance bitsN : FixedBitSet := {|
  Bits := N;
  noBits := 0%N;
  bits_insertOrRemove :=
    fun s i shouldInsert => if shouldInsert then N.setbit s i else N.clearbit s i;
  bits_contains := N.testbit;
  features_empty := fun r s => N.eqb r 0 && N.eqb s 0
|}.

Definition plain (shape : DeclShape) (dc : option Decl) : Decl :=
  mkDecl shape None None dc.

(** [deinit] of a root class, with [isolated]; the [deinit] of its subclass
    without. *)
Definition rootDeinit : DestructorDecl := mkDestructorDecl true None.
Definition subDeinit : DestructorDecl := mkDestructorDecl false (Some rootDeinit).
Definition openClass : Decl := plain (ClassDecl Open subDeinit) None.
Definition publicClass : Decl := plain (ClassDecl Public subDeinit) None.

(** A table of three features, told apart by the shape of the declaration
    and by a marker in the suppression attribute. *)
Definition isAccessor (d : Decl) : bool :=
  match getShape d with AccessorDecl _ => true | _ => false end.

Definition toyTable : FeatureTable :=
  [ mkFeatureEntry 1 "ABIAttribute" LANGUAGE_FEATURE usesFeatureABIAttribute;
    mkFeatureEntry 2 "IsolatedDeinit" SUPPRESSIBLE_LANGUAGE_FEATURE
      usesFeatureIsolatedDeinit;
    mkFeatureEntry 3 "CoroutineAccessors" CONDITIONALLY_SUPPRESSIBLE_LANGUAGE_FEATURE
      isAccessor ].

(** An accessor of a property of the open class, itself inside an extension
    that uses nothing. *)
Definition property : Decl := plain OtherDecl (Some openClass).
Definition accessor : Decl := plain (AccessorDecl property) None.
Definition nestedOpenClass : Decl := plain (ClassDecl Open subDeinit) (Some openClass).

Definition suppressing (names : list Identifier) (inverted : bool) : Decl :=
  mkDecl OtherDecl None (Some (mkAllowFeatureSuppressionAttr inverted names)) None.

End FeatureSet.

(** * Properties *)

(** Unfolding the tests and accessors of the header down to [isInvalid]. *)
Ltac unfold_variant :=
  unfold getPack, getConcrete, getAbstract, isPack, isConcrete, isAbstract in *.

Section Properties.
Context {TG : TypeGraph} {CS : Collaborators}.

(** ** Variant tests *)

Lemma isInvalid_not_concrete (r : ProtocolConformanceRef) :
  isInvalid r = true -> isConcrete r = false.
Proof. intros H; unfold isConcrete; rewrite H; reflexivity. Qed.

Lemma isInvalid_not_abstract (r : ProtocolConformanceRef) :
  isInvalid r = true -> isAbstract r = false.
Proof. intros H; unfold isAbstract; rewrite H; reflexivity. Qed.

Lemma isAbstract_PackRef (p : PackConformance) : isAbstract (PackRef p) = false.
Proof. unfold isAbstract; apply andb_false_r. Qed.

(** C9, as the code has it: [isInvalid] answers true exactly for the null
    reference and for a reference whose union holds a pack conformance that
    is itself invalid, so an invalid reference need not be the payload-free
    one; on every invalid reference each of [isPack], [isConcrete] and
    [isAbstract] answers false. *)
Theorem isInvalid_covers_invalid_packs :
  isInvalid NullRef = true
  /\ (forall r, isInvalid r = true <->
                r = NullRef \/ exists p, r = PackRef p /\ pack_isInvalid p = true)
  /\ (forall p, pack_isInvalid p = true ->
                isInvalid (PackRef p) = true /\ PackRef p <> NullRef)
  /\ (forall r, isInvalid r = true ->
                isPack r = false /\ isConcrete r = false /\ isAbstract r = false).
Proof.
  split; [reflexivity|split; [|split]].
  - intros r; split.
    + destruct r as [|a|c|p]; simpl; intros H; try discriminate.
      * now left.
      * right; exists p; auto.
    + intros [-> | [p [-> Hp]]]; simpl; auto.
  - intros p Hp; simpl; split; [exact Hp|discriminate].
  - intros r H; unfold isPack, isConcrete, isAbstract; rewrite H.
    repeat split.
Qed.

(** C10: on a reference for which [isInvalid] holds, [getType] returns the
    null [Type], not an error type or any other type. *)
Theorem getType_invalid_is_null (r : ProtocolConformanceRef) :
  isInvalid r = true ->
  getType r = ([], Returned None)
  /\ forall t, getType r <> ([], Returned (Some t)).
Proof.
  intros H; unfold getType; rewrite H; split; [reflexivity|].
  intros t; unfold ret; congruence.
Qed.

(** ** Substitution *)

(** C2: substituting into an invalid reference returns that very reference,
    whatever the original type and the substitution context, and performs no
    lookup. *)
Theorem subst_invalid_unchanged (r : ProtocolConformanceRef)
  (origType : TypeBase) (IFS : InFlightSubstitution) :
  isInvalid r = true -> subst r origType IFS = ([], Returned r).
Proof. intros H; unfold subst; rewrite H; reflexivity. Qed.

(** C4: for an abstract reference, when the original type is an opaque
    archetype and the context does not substitute opaque archetypes, [subst]
    returns the abstract reference over the substituted type with the same
    protocol, and performs no conformance lookup. *)
Theorem subst_opaque_stays_abstract (a : AbstractConformance)
  (origType : TypeBase) (IFS : InFlightSubstitution) :
  isNonNull (getAs_OpaqueTypeArchetypeType origType) = true ->
  shouldSubstituteOpaqueArchetypes IFS = false ->
  subst (AbstractRef a) origType IFS
  = ([], Returned (forAbstract (Type_subst origType IFS) (abstract_getProtocol a)))
  /\ getProtocol (forAbstract (Type_subst origType IFS) (abstract_getProtocol a))
     = getProtocol (AbstractRef a)
  /\ getType (forAbstract (Type_subst origType IFS) (abstract_getProtocol a))
     = ([], Returned (Some (Type_subst origType IFS))).
Proof.
  intros Hop Hno; unfold subst; simpl.
  rewrite Hop, Hno; simpl; auto.
Qed.

(** C3: for an abstract reference past the opaque-archetype test (the
    original type is not an opaque archetype, or the context substitutes
    opaque archetypes), if the substituted type is existential then [subst]
    performs exactly one lookup, the global one with allowMissing set, and
    returns what it found, or the invalid reference if it found nothing. *)
Theorem subst_existential_lookup (a : AbstractConformance)
  (origType : TypeBase) (IFS : InFlightSubstitution) :
  isNonNull (getAs_OpaqueTypeArchetypeType origType)
    && negb (shouldSubstituteOpaqueArchetypes IFS) = false ->
  isExistentialType (Type_subst origType IFS) = true ->
  let substType := Type_subst origType IFS in
  let proto := abstract_getProtocol a in
  let found := lookupConformance substType proto true in
  subst (AbstractRef a) origType IFS
  = ([GlobalLookup substType proto true],
     Returned (if isInvalid found then forInvalid else found)).
Proof.
  intros Hgate Hex; unfold subst; simpl.
  rewrite Hgate, Hex; simpl.
  unfold operator_bool.
  destruct (isInvalid (lookupConformance _ _ true)); reflexivity.
Qed.

(** ** Type witnesses *)

Lemma ProtocolDecl_eqb_refl (p : ProtocolDecl) : ProtocolDecl_eqb p p = true.
Proof. apply String.eqb_refl. Qed.

(** C5: on a concrete reference (queried for an associated type of its own
    protocol), [getTypeWitness] returns the dependent member of an error type
    both when the concrete conformance has no witness and when its witness is
    an error type; that value is the one the invalid reference gives. *)
Theorem getTypeWitness_concrete_failed (c : ProtocolConformance)
  (conformingType : TypeBase) (assocType : AssociatedTypeDecl)
  (options : SubstOptions) :
  assoc_getProtocol assocType = concrete_getProtocol c ->
  (concrete_getTypeWitness c assocType options = None
   \/ exists w, concrete_getTypeWitness c assocType options = Some w
                /\ is_ErrorType w = true) ->
  getTypeWitness (ConcreteRef c) conformingType assocType options
  = ([], Returned
           (Some (DependentMemberType_get (ErrorType_get_original conformingType)
                    assocType)))
  /\ getTypeWitness (ConcreteRef c) conformingType assocType options
     = getTypeWitness NullRef conformingType assocType options.
Proof.
  intros Hproto Hw.
  assert (E : getTypeWitness (ConcreteRef c) conformingType assocType options
              = ret (failed conformingType assocType)).
  { unfold getTypeWitness; simpl.
    rewrite Hproto, ProtocolDecl_eqb_refl; simpl.
    destruct Hw as [-> | [w [-> Herr]]]; [reflexivity|].
    rewrite Herr; reflexivity. }
  split; [exact E | rewrite E; reflexivity].
Qed.

(** C6: on an abstract reference (queried for an associated type of its own
    protocol): a conforming type that is an archetype yields the archetype's
    nested type, without lookup; any other conforming type that is a type
    parameter, a type variable or member of one, unresolved or a placeholder
    yields the dependent member type over the conforming type; and a
    conforming type of none of these shapes stops at the assertion, no
    witness being returned. *)
Theorem getTypeWitness_abstract (a : AbstractConformance)
  (conformingType : TypeBase) (assocType : AssociatedTypeDecl)
  (options : SubstOptions) :
  (assoc_getProtocol assocType = abstract_getProtocol a ->
   forall archetypeType,
     getAs_ArchetypeType conformingType = Some archetypeType ->
     getTypeWitness (AbstractRef a) conformingType assocType options
     = ([], Returned (getNestedType archetypeType assocType)))
  /\ (assoc_getProtocol assocType = abstract_getProtocol a ->
      getAs_ArchetypeType conformingType = None ->
      isTypeParameter conformingType || isTypeVariableOrMember conformingType
        || is_UnresolvedType conformingType || is_PlaceholderType conformingType
      = true ->
      getTypeWitness (AbstractRef a) conformingType assocType options
      = ([], Returned (Some (DependentMemberType_get conformingType assocType))))
  /\ (getAs_ArchetypeType conformingType = None ->
      isTypeParameter conformingType || isTypeVariableOrMember conformingType
        || is_UnresolvedType conformingType || is_PlaceholderType conformingType
      = false ->
      exists condition,
        getTypeWitness (AbstractRef a) conformingType assocType options
        = ([], Aborted (AssertionFailure condition))
        /\ (assoc_getProtocol assocType = abstract_getProtocol a ->
            condition
            = "conformingType is a type parameter, type variable, unresolved or placeholder")).
Proof.
  repeat split.
  - intros Hproto arch Harch; unfold getTypeWitness; simpl.
    rewrite Hproto, ProtocolDecl_eqb_refl; simpl.
    rewrite Harch; reflexivity.
  - intros Hproto Harch Hshape; unfold getTypeWitness; simpl.
    rewrite Hproto, ProtocolDecl_eqb_refl; simpl.
    rewrite Harch, Hshape; reflexivity.
  - intros Harch Hshape; unfold getTypeWitness; simpl.
    destruct (ProtocolDecl_eqb (assoc_getProtocol assocType)
                (abstract_getProtocol a)) eqn:E; simpl.
    + rewrite Harch, Hshape; simpl. eexists; split; [reflexivity|auto].
    + eexists; split; [reflexivity|].
      intros Hproto; rewrite Hproto, ProtocolDecl_eqb_refl in E; discriminate.
Qed.

(** C1, as the code has it: on every reference for which [isInvalid] holds,
    the null one and an invalid pack alike, [getTypeWitness] returns the
    dependent member of an error type and [getAssociatedType] returns the
    error type, neither stopping at an assertion nor performing a lookup;
    [getTypeWitnessByName] asserts that the reference is not invalid and
    stops there. *)
Theorem invalid_queries (r : ProtocolConformanceRef) :
  isInvalid r = true ->
  (forall conformingType assocType options,
      getTypeWitness r conformingType assocType options
      = ([], Returned
               (Some (DependentMemberType_get
                        (ErrorType_get_original conformingType) assocType))))
  /\ (forall conformingType assocType,
         getAssociatedType r conformingType assocType
         = ([], Returned (Some ErrorType_get)))
  /\ (forall type name,
         getTypeWitnessByName r type name
         = ([], Aborted (AssertionFailure "!isInvalid()"))).
Proof.
  intros H; repeat split.
  - intros ct assoc options. unfold getTypeWitness, isPack.
    rewrite H; reflexivity.
  - intros ct assocTy. unfold getAssociatedType. rewrite H; reflexivity.
  - intros type name. unfold getTypeWitnessByName. rewrite H; reflexivity.
Qed.

(** The two remaining queries have no case for an invalid reference:
    [getWitnessByName] asks for the protocol first and stops in the accessor,
    [getAssociatedConformance] falls through to the abstract path. *)
Remark getWitnessByName_invalid (r : ProtocolConformanceRef) (type : TypeBase)
  (name : DeclName) :
  isInvalid r = true ->
  getWitnessByName r type name
  = ([], Aborted (AssertionFailure "isAbstract()")).
Proof.
  intros H. unfold getWitnessByName, getProtocol, getAbstract, isConcrete,
              isPack, isAbstract.
  rewrite H; reflexivity.
Qed.

Remark getAssociatedConformance_invalid (r : ProtocolConformanceRef)
  (conformingType assocType : TypeBase) (protocol : ProtocolDecl) :
  isInvalid r = true ->
  getAs_ArchetypeType conformingType = None ->
  getAssociatedConformance r conformingType assocType protocol
  = ([], Returned (forAbstract (computeSubjectType assocType conformingType)
                     protocol)).
Proof.
  intros Hinv H; unfold getAssociatedConformance, isPack, isConcrete.
  rewrite Hinv; simpl. rewrite H; reflexivity.
Qed.

(** ** Canonicalization *)

(** C7: given that the canonicalizations of types, concrete conformances
    and pack conformances are idempotent and fix what is canonical,
    [getCanonicalConformanceRef] always returns, canonicalizing its result
    again returns the same reference, and a reference for which
    [isCanonical] holds canonicalizes to itself. *)
Theorem canonical_idempotent (L : CanonicalizationLaws)
  (r : ProtocolConformanceRef) :
  (exists r',
      getCanonicalConformanceRef r = ([], Returned r')
      /\ getCanonicalConformanceRef r' = ([], Returned r'))
  /\ (isCanonical r = ([], Returned true) ->
      getCanonicalConformanceRef r = ([], Returned r)).
Proof.
  destruct L as [Tidem Tfix Cidem Cfix Pidem Pfix].
  destruct r as [|[t proto]|c|p].
  - split; [exists NullRef; split|]; reflexivity.
  - split.
    + exists (forAbstract (getCanonicalType t) proto); split; [reflexivity|].
      unfold getCanonicalConformanceRef, forAbstract; simpl.
      rewrite Tidem; reflexivity.
    + unfold isCanonical, getCanonicalConformanceRef, forAbstract; simpl.
      unfold ret; intros H.
      assert (Hc : TypeBase_isCanonical t = true) by congruence.
      rewrite (Tfix _ Hc); reflexivity.
  - split.
    + exists (ConcreteRef (concrete_getCanonicalConformance c)).
      unfold getCanonicalConformanceRef; simpl.
      rewrite Cidem; split; reflexivity.
    + unfold isCanonical, getCanonicalConformanceRef; simpl.
      unfold ret; intros H.
      assert (Hc : concrete_isCanonical c = true) by congruence.
      rewrite (Cfix _ Hc); reflexivity.
  - unfold isCanonical, getCanonicalConformanceRef; unfold_variant; simpl.
    destruct (pack_isInvalid p) eqn:Hinv; simpl.
    + split; [exists (PackRef p); simpl; rewrite Hinv; split|]; reflexivity.
    + split.
      * exists (PackRef (pack_getCanonicalConformance p)); simpl.
        split; [reflexivity|].
        destruct (pack_isInvalid (pack_getCanonicalConformance p));
          simpl; [reflexivity|].
        rewrite Pidem; reflexivity.
      * unfold ret; intros H.
        assert (Hc : pack_isCanonical p = true) by congruence.
        rewrite (Pfix _ Hc); reflexivity.
Qed.

(** ** Missing conformances *)

(** Induction over a reference and the references nested in its payload. *)
Lemma ProtocolConformanceRef_nested_ind (P : ProtocolConformanceRef -> Prop) :
  P NullRef ->
  (forall a, P (AbstractRef a)) ->
  (forall ty proto root subs,
      Forall P subs -> P (ConcreteRef (mkProtocolConformance ty proto root subs))) ->
  (forall ty proto pats,
      Forall P pats -> P (PackRef (mkPackConformance ty proto pats))) ->
  forall r, P r.
Proof.
  intros Hnull Habs Hconc Hpack.
  fix IH 1.
  intros [|a|[ty proto root subs]|[ty proto pats]].
  - exact Hnull.
  - apply Habs.
  - apply Hconc.
    exact ((fix go (l : list ProtocolConformanceRef) : Forall P l :=
              match l with
              | [] => Forall_nil P
              | x :: l' => @Forall_cons _ P x l' (IH x) (go l')
              end) subs).
  - apply Hpack.
    exact ((fix go (l : list ProtocolConformanceRef) : Forall P l :=
              match l with
              | [] => Forall_nil P
              | x :: l' => @Forall_cons _ P x l' (IH x) (go l')
              end) pats).
Qed.

Section Traversal.
Variable S : Type.
Variable fn : Visitor S.

Lemma visitUntil_app (l1 l2 : list BuiltinProtocolConformance) (st : Visit S) :
  visitUntil fn (l1 ++ l2) st
  = let (stop, st') := visitUntil fn l1 st in
    if stop then (true, st') else visitUntil fn l2 st'.
Proof.
  revert st; induction l1 as [|b l1 IH]; intros st; simpl; [reflexivity|].
  destruct (call_fn fn b st) as [[|] st']; [reflexivity|apply IH].
Qed.

Lemma anyOf_visitUntil (l : list ProtocolConformanceRef) :
  Forall (fun r => forall st,
              forEachMissingConformance fn r st
              = visitUntil fn (missingConformances r) st) l ->
  forall st,
    anyOf (forEachMissingConformance fn) l st
    = visitUntil fn (flat_map missingConformances l) st.
Proof.
  induction 1 as [|r l Hr _ IH]; intros st; simpl; [reflexivity|].
  rewrite visitUntil_app, Hr.
  destruct (visitUntil fn (missingConformances r) st) as [[|] st'];
    [reflexivity|apply IH].
Qed.

(** The traversal hands the visitor the missing conformances in order, up to
    the first one at which the visitor asks to stop. *)
Lemma forEachMissingConformance_visitUntil (r : ProtocolConformanceRef) :
  forall st,
    forEachMissingConformance fn r st
    = visitUntil fn (missingConformances r) st.
Proof.
  induction r as [|a|ty proto root subs IH|ty proto pats IH]
    using ProtocolConformanceRef_nested_ind; intros st.
  - reflexivity.
  - reflexivity.
  - cbn [forEachMissingConformance missingConformances isInvalid isAbstract negb andb
           orb getRootConformance getSubstitutionMapConformances].
    rewrite visitUntil_app.
    destruct root as [| |b]; cbn [visitUntil];
      try (apply anyOf_visitUntil; exact IH).
    destruct (isMissing b); cbn [visitUntil].
    + destruct (call_fn fn b st) as [[|] st1]; [reflexivity|].
      apply anyOf_visitUntil; exact IH.
    + apply anyOf_visitUntil; exact IH.
  - cbn [forEachMissingConformance missingConformances isInvalid isAbstract negb andb
           getPatternConformances].
    rewrite ?isAbstract_PackRef in *.
    destruct (pack_isInvalid (mkPackConformance ty proto pats));
      cbn [orb]; [reflexivity|].
    apply anyOf_visitUntil; exact IH.
Qed.

Lemma visitUntil_log_grows (l : list BuiltinProtocolConformance) (st : Visit S) :
  exists k, snd (snd (visitUntil fn l st)) = snd st ++ k.
Proof.
  revert st; induction l as [|b l IH]; intros st; simpl.
  - exists []; now rewrite app_nil_r.
  - unfold call_fn. destruct (fn b (fst st)) as [stop s'].
    destruct stop.
    + exists [b]; reflexivity.
    + destruct (IH (s', snd st ++ [b])) as [k Hk].
      exists ([b] ++ k). rewrite Hk; simpl. now rewrite <- app_assoc.
Qed.

Lemma visited_nonempty (r : ProtocolConformanceRef) (s : S) :
  visited fn r s <> [] <-> missingConformances r <> [].
Proof.
  unfold visited; rewrite forEachMissingConformance_visitUntil.
  destruct (missingConformances r) as [|b l]; simpl.
  - split; intros H; exact H.
  - split; [intros _; discriminate|intros _].
    unfold call_fn; simpl. destruct (fn b s) as [stop s'].
    destruct stop; simpl; [discriminate|].
    destruct (visitUntil_log_grows l (s', [b])) as [k Hk].
    rewrite Hk; simpl; discriminate.
Qed.

End Traversal.

Lemma hasMissingConformance_nonempty (r : ProtocolConformanceRef) :
  hasMissingConformance r = true <-> missingConformances r <> [].
Proof.
  unfold hasMissingConformance; rewrite forEachMissingConformance_visitUntil.
  destruct (missingConformances r) as [|b l]; simpl.
  - split; [discriminate|intros H; now elim H].
  - split; [discriminate|reflexivity].
Qed.

Lemma missing_self (r : ProtocolConformanceRef) (b : BuiltinProtocolConformance) :
  isMissingConformance r b -> In b (missingConformances r).
Proof.
  intros [[ty proto root subs] [-> [Hroot Hmiss]]]; simpl in *.
  subst root; rewrite Hmiss; simpl; now left.
Qed.

Lemma missing_contains (r r' : ProtocolConformanceRef)
  (b : BuiltinProtocolConformance) :
  contains r r' -> In b (missingConformances r') -> In b (missingConformances r).
Proof.
  intros [[ty proto root subs] x Hin | [ty proto pats] x Hvalid Hin] Hb.
  - simpl in *. apply in_or_app; right.
    apply in_flat_map; exists x; auto.
  - cbn [missingConformances isInvalid isAbstract negb andb getPatternConformances] in *.
    rewrite ?isAbstract_PackRef in *.
    rewrite Hvalid; cbn [orb].
    apply in_flat_map; exists x; auto.
Qed.

Lemma missing_nested (r r' : ProtocolConformanceRef)
  (b : BuiltinProtocolConformance) :
  nested r r' -> In b (missingConformances r') -> In b (missingConformances r).
Proof.
  induction 1 as [c x Hin | r r1 r' _ IH Hc]; intros Hb.
  - apply (@missing_contains (ConcreteRef c) x); [now constructor|exact Hb].
  - apply IH. apply (missing_contains b Hc Hb).
Qed.

End Properties.

(** * The toy graph: instances of the statements above *)

Import Toy.

Lemma toy_canonical_twice (t : ToyType) :
  canonical (canonical t) = canonical t.
Proof. induction t; simpl; congruence. Qed.

Lemma sugarFree_canonical (t : ToyType) : sugarFree t = true -> canonical t = t.
Proof.
  induction t; simpl; intros H; try reflexivity; try discriminate;
    f_equal; auto.
Qed.

Lemma toy_canonicalization_laws :
  @CanonicalizationLaws Toy.types Toy.collaborators.
Proof.
  constructor; simpl.
  - apply toy_canonical_twice.
  - apply sugarFree_canonical.
  - intros [ty proto root subs]; simpl. now rewrite toy_canonical_twice.
  - intros [ty proto root subs]; simpl. intros H.
    now rewrite (sugarFree_canonical _ H).
  - intros [ty proto pats]; simpl. now rewrite toy_canonical_twice.
  - intros [ty proto pats]; simpl. intros H.
    now rewrite (sugarFree_canonical _ H).
Qed.

(** The pack [(missing, null)] is invalid: a reference to it is invalid,
    holds a payload, and is no pack for [isPack]. *)
Lemma isInvalid_covers_invalid_packs_witness :
  pack_isInvalid invalidPack = true
  /\ (isInvalid (PackRef invalidPack) = true /\ PackRef invalidPack <> NullRef)
  /\ (isPack (PackRef invalidPack) = false
      /\ isConcrete (PackRef invalidPack) = false
      /\ isAbstract (PackRef invalidPack) = false).
Proof.
  split; [reflexivity|split].
  - apply (proj1 (proj2 (proj2 (@isInvalid_covers_invalid_packs types
                                  collaborators)))).
    reflexivity.
  - apply (proj2 (proj2 (proj2 (@isInvalid_covers_invalid_packs types
                                  collaborators)))).
    reflexivity.
Defined.

(** C9 as stated fails at "isInvalid() and isPack() can hold simultaneously":
    the reference to the invalid pack is invalid and [isPack] answers false
    for it, as for every invalid reference. *)
Lemma isInvalid_isPack_counterexample :
  isInvalid (PackRef invalidPack) = true
  /\ isPack (PackRef invalidPack) = false
  /\ forall r : Ref, isInvalid r && isPack r = false.
Proof.
  split; [reflexivity|split; [reflexivity|]].
  intros r; unfold isPack; destruct (isInvalid r); reflexivity.
Qed.

Lemma getType_invalid_is_null_witness :
  getType (PackRef invalidPack) = ([], Returned None)
  /\ getType (@NullRef types) = ([], Returned None).
Proof.
  split.
  - apply (@getType_invalid_is_null types collaborators); reflexivity.
  - apply (@getType_invalid_is_null types collaborators); reflexivity.
Defined.

Lemma subst_invalid_unchanged_witness :
  subst NullRef T toAnyError = ([], Returned NullRef)
  /\ subst (PackRef invalidPack) someP opaqueToAnyError
     = ([], Returned (PackRef invalidPack)).
Proof.
  split.
  - apply (@subst_invalid_unchanged types collaborators); reflexivity.
  - apply (@subst_invalid_unchanged types collaborators); reflexivity.
Defined.

(** [some P] under the identity substitution stays [some P: P], abstract. *)
Lemma subst_opaque_stays_abstract_witness :
  subst abstractOpaque_P someP identitySubstitution
  = ([], Returned (AbstractRef (@mkAbstractConformance types someP "P"))).
Proof.
  apply (@subst_opaque_stays_abstract types collaborators
           (@mkAbstractConformance types someP "P") someP identitySubstitution);
    reflexivity.
Defined.

(** [T: P] under [T := any Error]: the substituted type is existential, the
    lookup of [any Error: P] (allowing missing conformances) finds nothing,
    and the result is the invalid reference.  [T: Error] under the same
    substitution finds the self-conformance of [any Error].  An opaque
    archetype under a context that substitutes opaque archetypes takes the
    same path. *)
Lemma subst_existential_lookup_witness :
  subst abstractT_P T toAnyError
  = ([GlobalLookup (Existential "Error") "P" true], Returned NullRef)
  /\ subst abstractT_Error T toAnyError
     = ([GlobalLookup (Existential "Error") "Error" true],
        Returned (ConcreteRef (@mkProtocolConformance types (Existential "Error")
                                 "Error" RootSelf [])))
  /\ subst abstractOpaque_P someP opaqueToAnyError
     = ([GlobalLookup (Existential "Error") "P" true], Returned NullRef).
Proof.
  split; [|split].
  - apply (@subst_existential_lookup types collaborators
             (@mkAbstractConformance types T "P") T toAnyError);
      reflexivity.
  - apply (@subst_existential_lookup types collaborators
             (@mkAbstractConformance types T "Error") T toAnyError);
      reflexivity.
  - apply (@subst_existential_lookup types collaborators
             (@mkAbstractConformance types someP "P") someP opaqueToAnyError);
      reflexivity.
Defined.

(** [Array: Collection] has no witness for [Index]; [Broken: Collection]
    witnesses [Element] by the error type.  Both give the same placeholder
    shape. *)
Lemma getTypeWitness_concrete_failed_witness :
  getTypeWitness (ConcreteRef array_Collection) (Nominal "Array")
    (mkAssociatedTypeDecl "Index" "Collection") []
  = ([], Returned (Some (DependentMember (ErrorOf (Nominal "Array"))
                           (mkAssociatedTypeDecl "Index" "Collection"))))
  /\ getTypeWitness (ConcreteRef broken_Collection) (Nominal "Broken") Element []
     = ([], Returned (Some (DependentMember (ErrorOf (Nominal "Broken")) Element))).
Proof.
  split.
  - apply (@getTypeWitness_concrete_failed types collaborators array_Collection
             (Nominal "Array") (mkAssociatedTypeDecl "Index" "Collection") []);
      [reflexivity | left; reflexivity].
  - apply (@getTypeWitness_concrete_failed types collaborators broken_Collection
             (Nominal "Broken") Element []);
      [reflexivity | right; exists Error; split; reflexivity].
Defined.

(** [T: Collection] asked for [Element] at an archetype, at [T] itself, and
    at [Int]. *)
Lemma getTypeWitness_abstract_witness :
  getTypeWitness abstractT_Collection (PrimaryArchetype 1 T) Element []
  = ([], Returned (Some (PrimaryArchetype 1 (DependentMember T Element))))
  /\ getTypeWitness abstractT_Collection T Element []
     = ([], Returned (Some (DependentMember T Element)))
  /\ exists condition,
       getTypeWitness abstractT_Collection Int Element []
       = ([], Aborted (AssertionFailure condition)).
Proof.
  split; [|split].
  - apply (proj1 (@getTypeWitness_abstract types collaborators
                    (@mkAbstractConformance types T "Collection")
                    (PrimaryArchetype 1 T) Element [])
             eq_refl (PrimaryArchetype 1 T) eq_refl).
  - apply (proj1 (proj2 (@getTypeWitness_abstract types collaborators
                           (@mkAbstractConformance types T "Collection") T Element []))
             eq_refl eq_refl eq_refl).
  - destruct (proj2 (proj2 (@getTypeWitness_abstract types collaborators
                              (@mkAbstractConformance types T "Collection") Int Element []))
                eq_refl eq_refl) as [condition [H _]].
    exists condition; exact H.
Defined.

(** The null reference and the reference to the invalid pack, queried. *)
Lemma invalid_queries_witness :
  (getTypeWitness (PackRef invalidPack) Int Element []
   = ([], Returned (Some (DependentMember (ErrorOf Int) Element)))
   /\ getAssociatedType (PackRef invalidPack) Int T
      = ([], Returned (Some Error))
   /\ getTypeWitnessByName (PackRef invalidPack) Int "Element"
      = ([], Aborted (AssertionFailure "!isInvalid()")))
  /\ (getTypeWitness (@NullRef types) Int Element []
      = ([], Returned (Some (DependentMember (ErrorOf Int) Element)))
      /\ getAssociatedType (@NullRef types) Int T
         = ([], Returned (Some Error))
      /\ getTypeWitnessByName (@NullRef types) Int "Element"
         = ([], Aborted (AssertionFailure "!isInvalid()"))).
Proof.
  split.
  - destruct (@invalid_queries types collaborators (PackRef invalidPack) eq_refl)
      as [H1 [H2 H3]].
    split; [apply H1|split; [apply H2|apply H3]].
  - destruct (@invalid_queries types collaborators NullRef eq_refl)
      as [H1 [H2 H3]].
    split; [apply H1|split; [apply H2|apply H3]].
Defined.

(** C1 as stated fails at [getTypeWitnessByName]: on the invalid reference
    it stops at its assertion and returns nothing. *)
Lemma getTypeWitnessByName_invalid_counterexample :
  getTypeWitnessByName (@forInvalid types) Int "Element"
  = ([], Aborted (AssertionFailure "!isInvalid()"))
  /\ ~ (exists evs t,
           getTypeWitnessByName (@forInvalid types) Int "Element"
           = (evs, Returned t)).
Proof.
  split; [reflexivity|].
  intros [evs [t H]]; discriminate H.
Qed.

(** The sugared [Index = T] canonicalizes to [T], and stays there; the
    already canonical [T: P] is left alone. *)
Lemma canonical_idempotent_witness :
  (exists r',
      getCanonicalConformanceRef aliasedT_P = ([], Returned r')
      /\ getCanonicalConformanceRef r' = ([], Returned r'))
  /\ getCanonicalConformanceRef abstractT_P = ([], Returned abstractT_P).
Proof.
  split.
  - apply (proj1 (canonical_idempotent toy_canonicalization_laws aliasedT_P)).
  - apply (proj2 (canonical_idempotent toy_canonicalization_laws abstractT_P)).
    reflexivity.
Defined.

(** An invalid pack hides what its elements hold: the traversal answers false
    although the first element is a missing conformance. *)
Remark invalid_pack_hides_missing :
  In missingConformance (getPatternConformances invalidPack)
  /\ hasMissingConformance missingConformance = true
  /\ hasMissingConformance (PackRef invalidPack) = false.
Proof. repeat split; simpl; auto. Qed.

(** * Further properties of the file *)

Section MoreProperties.
Context {TG : TypeGraph} {CS : Collaborators}.

Lemma bind_ret_l {A B} (a : A) (k : A -> Exec B) : bind (ret a) k = k a.
Proof. unfold bind, ret. destruct (k a) as [evs o]; reflexivity. Qed.

Lemma getProtocol_valid (r : ProtocolConformanceRef) :
  isInvalid r = false -> exists proto, getProtocol r = ret proto.
Proof.
  destruct r as [|a|c|p]; simpl; intros H; try discriminate;
    unfold getProtocol; unfold_variant; simpl; rewrite ?H;
    eexists; reflexivity.
Qed.

(** ** Substitution *)

(** X1: [subst] returns a reference on every input: the assertion that the
    reference is abstract cannot fail after the three tests before it, and
    at most one conformance lookup is performed. *)
Theorem subst_always_returns (r : ProtocolConformanceRef)
  (origType : TypeBase) (IFS : InFlightSubstitution) :
  exists evs r',
    subst r origType IFS = (evs, Returned r') /\ List.length evs <= 1.
Proof.
  destruct r as [|a|c|p]; unfold subst; unfold_variant; simpl.
  - exists [], NullRef; auto.
  - destruct (isNonNull (getAs_OpaqueTypeArchetypeType origType)
              && negb (shouldSubstituteOpaqueArchetypes IFS)); simpl.
    + eexists; eexists; split; [reflexivity|simpl; lia].
    + destruct (isExistentialType (Type_subst origType IFS)); simpl.
      * destruct (operator_bool (lookupConformance _ _ true)); simpl;
          eexists; eexists; (split; [reflexivity|simpl; lia]).
      * eexists; eexists; split; [reflexivity|simpl; lia].
  - eexists; eexists; split; [reflexivity|simpl; lia].
  - destruct (pack_isInvalid p); simpl;
      eexists; eexists; (split; [reflexivity|simpl; lia]).
Qed.

(** X2: for an abstract reference off the opaque-archetype path, when the
    substituted type is not existential, [subst] performs exactly the local
    lookup of the substitution context (canonical original type, substituted
    type, the reference's protocol, level 0) and returns its answer. *)
Theorem subst_local_lookup (a : AbstractConformance)
  (origType : TypeBase) (IFS : InFlightSubstitution) :
  isNonNull (getAs_OpaqueTypeArchetypeType origType)
    && negb (shouldSubstituteOpaqueArchetypes IFS) = false ->
  isExistentialType (Type_subst origType IFS) = false ->
  subst (AbstractRef a) origType IFS
  = ([LocalLookup (getCanonicalType origType) (Type_subst origType IFS)
        (abstract_getProtocol a) 0],
     Returned (IFS_lookupConformance IFS (getCanonicalType origType)
                 (Type_subst origType IFS) (abstract_getProtocol a) 0)).
Proof.
  intros Hgate Hex; unfold subst; simpl.
  rewrite Hgate, Hex; reflexivity.
Qed.

(** [subst] on an abstract reference looks only at the reference's
    protocol: the type stored in the reference plays no part, the type that
    is substituted is the [origType] argument. *)
Remark subst_abstract_ignores_stored_type (t t' : TypeBase)
  (proto : ProtocolDecl) (origType : TypeBase) (IFS : InFlightSubstitution) :
  subst (forAbstract t proto) origType IFS
  = subst (forAbstract t' proto) origType IFS.
Proof. reflexivity. Qed.

(** ** Accessors *)

(** X3: [getType] never stops at an assertion, and the type it returns is
    null exactly when the reference is invalid. *)
Theorem getType_null_iff_invalid (r : ProtocolConformanceRef) :
  (exists t, getType r = ([], Returned t))
  /\ (getType r = ([], Returned None) <-> isInvalid r = true).
Proof.
  destruct r as [|a|c|p]; unfold getType; unfold_variant; simpl.
  - split; [eexists; reflexivity|split; reflexivity].
  - split; [eexists; reflexivity|split; intros H; discriminate].
  - split; [eexists; reflexivity|split; intros H; discriminate].
  - destruct (pack_isInvalid p); simpl;
      (split; [eexists; reflexivity|split; intros H; try reflexivity;
                                     discriminate]).
Qed.

(** ** Queries by name *)

(** X4: on a reference that is not invalid, [getTypeWitnessByName] passes
    its assertion; a name that is no associated type of the protocol yields
    the error type, and a name that is one yields what [getTypeWitness]
    gives for that associated type with default options. *)
Theorem getTypeWitnessByName_valid (r : ProtocolConformanceRef)
  (type : TypeBase) (name : Identifier) :
  isInvalid r = false ->
  exists proto,
    getProtocol r = ([], Returned proto)
    /\ match ProtocolDecl_getAssociatedType proto name with
       | None =>
           getTypeWitnessByName r type name = ([], Returned (Some ErrorType_get))
       | Some assocType =>
           getTypeWitnessByName r type name = getTypeWitness r type assocType []
       end.
Proof.
  intros Hvalid.
  destruct (getProtocol_valid r Hvalid) as [proto Hp].
  exists proto; split; [exact Hp|].
  unfold getTypeWitnessByName, ASSERT; rewrite Hvalid; cbn [negb].
  rewrite bind_ret_l, Hp, bind_ret_l.
  destruct (ProtocolDecl_getAssociatedType proto name); reflexivity.
Qed.

(** X5: on a reference that is not invalid, [getWitnessByName] returns
    without lookup: the null declaration reference when the protocol has no
    single requirement of that name; otherwise, for a concrete reference the
    entry of its witness table, and for any other reference the requirement
    itself under the protocol substitutions of the given type. *)
Theorem getWitnessByName_valid (r : ProtocolConformanceRef)
  (type : TypeBase) (name : DeclName) :
  isInvalid r = false ->
  exists proto,
    getProtocol r = ([], Returned proto)
    /\ getWitnessByName r type name
       = ([], Returned
                match ProtocolDecl_getSingleRequirement proto name with
                | None => None
                | Some requirement =>
                    match r with
                    | ConcreteRef c => concrete_getWitnessDeclRef c requirement
                    | _ => Some (requirement,
                                 getProtocolSubstitutions proto type r)
                    end
                end).
Proof.
  intros Hvalid.
  destruct (getProtocol_valid r Hvalid) as [proto Hp].
  exists proto; split; [exact Hp|].
  unfold getWitnessByName; rewrite Hp, bind_ret_l.
  destruct (ProtocolDecl_getSingleRequirement proto name); [|reflexivity].
  destruct r; unfold_variant; simpl in *; try discriminate;
    rewrite ?Hvalid; reflexivity.
Qed.

(** ** Projections *)

(** X6: on an abstract reference [getAssociatedConformance] never looks at
    the reference itself.  For a conforming type that is no archetype it
    returns, without lookup, the abstract reference of the target protocol
    over the subject type; for an archetype it performs one global lookup,
    not allowing missing conformances, of the subject type mapped into the
    archetype's environment. *)
Theorem getAssociatedConformance_abstract (a : AbstractConformance)
  (conformingType assocType : TypeBase) (protocol : ProtocolDecl) :
  (getAs_ArchetypeType conformingType = None ->
   getAssociatedConformance (AbstractRef a) conformingType assocType protocol
   = ([], Returned (forAbstract (computeSubjectType assocType conformingType)
                      protocol)))
  /\ (forall archetypeType,
         getAs_ArchetypeType conformingType = Some archetypeType ->
         let subject :=
           mapTypeIntoContext (getGenericEnvironment archetypeType)
             (computeSubjectType assocType (getInterfaceType archetypeType)) in
         getAssociatedConformance (AbstractRef a) conformingType assocType protocol
         = ([GlobalLookup subject protocol false],
            Returned (lookupConformance subject protocol false)))
  /\ (forall a',
         getAssociatedConformance (AbstractRef a) conformingType assocType protocol
         = getAssociatedConformance (AbstractRef a') conformingType assocType
             protocol).
Proof.
  unfold getAssociatedConformance; simpl; repeat split.
  - intros H; rewrite H; reflexivity.
  - intros arch H; rewrite H; reflexivity.
Qed.

(** X7: on a concrete reference, queried for an associated type of its own
    protocol, [getTypeWitness] returns a type that is never null, without
    lookup; a witness that is present and no error type is returned as it
    is. *)
Theorem getTypeWitness_concrete_never_null (c : ProtocolConformance)
  (conformingType : TypeBase) (assocType : AssociatedTypeDecl)
  (options : SubstOptions) :
  assoc_getProtocol assocType = concrete_getProtocol c ->
  (exists t,
      getTypeWitness (ConcreteRef c) conformingType assocType options
      = ([], Returned (Some t)))
  /\ (forall w,
         concrete_getTypeWitness c assocType options = Some w ->
         is_ErrorType w = false ->
         getTypeWitness (ConcreteRef c) conformingType assocType options
         = ([], Returned (Some w))).
Proof.
  intros Hproto; unfold getTypeWitness; simpl.
  rewrite Hproto, ProtocolDecl_eqb_refl; simpl.
  split.
  - destruct (concrete_getTypeWitness c assocType options) as [w|];
      [destruct (is_ErrorType w)|]; eexists; reflexivity.
  - intros w Hw Herr; rewrite Hw, Herr; reflexivity.
Qed.

(** ** Canonical form *)

(** X8: given that the canonicalizations of types, concrete conformances and
    pack conformances produce what their [isCanonical] accepts, the reference
    [getCanonicalConformanceRef] returns satisfies [isCanonical]. *)
Theorem canonical_form_isCanonical (L : CanonicalFormLaws)
  (r : ProtocolConformanceRef) :
  exists r',
    getCanonicalConformanceRef r = ([], Returned r')
    /\ isCanonical r' = ([], Returned true).
Proof.
  destruct L as [Tcan Ccan Pcan].
  destruct r as [|[t proto]|c|p];
    unfold getCanonicalConformanceRef, isCanonical; unfold_variant; simpl.
  - exists NullRef; split; reflexivity.
  - eexists; split; [reflexivity|]. simpl. rewrite Tcan; reflexivity.
  - eexists; split; [reflexivity|]. simpl. rewrite Ccan; reflexivity.
  - destruct (pack_isInvalid p) eqn:Hinv; simpl.
    + exists (PackRef p); split; [reflexivity|]. simpl. rewrite Hinv.
      reflexivity.
    + eexists; split; [reflexivity|]. simpl.
      destruct (pack_isInvalid (pack_getCanonicalConformance p)); simpl;
        [reflexivity|]. rewrite Pcan; reflexivity.
Qed.

End MoreProperties.

(** ** The traversals *)

Section TraversalProperties.
Context {TG : TypeGraph} {CS : Collaborators} {TC : TraversalCollaborators}.

Lemma reaches_contains (r r1 r' : ProtocolConformanceRef) :
  reaches r r1 -> contains r1 r' -> reaches r r'.
Proof.
  induction 1 as [r|r r0 r1 Hc _ IH]; intros H.
  - eapply reaches_step; [exact H|apply reaches_here].
  - eapply reaches_step; [exact Hc|apply IH; exact H].
Qed.

Lemma existsb_flat_map {A B} (p : B -> bool) (f : A -> list B) (l : list A) :
  existsb p (flat_map f l) = existsb (fun x => existsb p (f x)) l.
Proof.
  induction l as [|x l IH]; simpl; [reflexivity|].
  now rewrite existsb_app, IH.
Qed.

Lemma existsb_pointwise {A} (p q : A -> bool) (l : list A) :
  (forall x, p x = q x) -> existsb p l = existsb q l.
Proof.
  intros H; induction l as [|x l IH]; simpl; [reflexivity|].
  now rewrite H, IH.
Qed.

(** *** Missing conformances *)

Lemma missing_reaches (r : ProtocolConformanceRef)
  (b : BuiltinProtocolConformance) :
  In b (missingConformances r)
  <-> exists r', reaches r r' /\ isMissingConformance r' b.
Proof.
  split.
  - revert b.
    induction r as [|a|ty proto root subs IH|ty proto pats IH]
      using ProtocolConformanceRef_nested_ind; intros b Hb.
    + destruct Hb.
    + destruct Hb.
    + cbn [missingConformances isInvalid isAbstract negb andb orb getRootConformance
             getSubstitutionMapConformances] in Hb.
      apply in_app_or in Hb as [Hb|Hb].
      * destruct root as [| |b0]; try destruct Hb.
        destruct (isMissing b0) eqn:Hm; [|destruct Hb].
        destruct Hb as [<-|[]].
        exists (ConcreteRef (mkProtocolConformance ty proto (RootBuiltin b0) subs)).
        split; [apply reaches_here|].
        eexists; repeat split; auto.
      * apply in_flat_map in Hb as [x [Hx Hb]].
        rewrite Forall_forall in IH.
        destruct (IH x Hx b Hb) as [r' [Hr Hm]].
        exists r'; split; [|exact Hm].
        eapply reaches_step; [|exact Hr].
        apply contains_subMap; exact Hx.
    + cbn [missingConformances isInvalid isAbstract negb andb getPatternConformances] in Hb.
      rewrite ?isAbstract_PackRef in *.
      destruct (pack_isInvalid (mkPackConformance ty proto pats)) eqn:Hinv;
        cbn [orb] in Hb; [destruct Hb|].
      apply in_flat_map in Hb as [x [Hx Hb]].
      rewrite Forall_forall in IH.
      destruct (IH x Hx b Hb) as [r' [Hr Hm]].
      exists r'; split; [|exact Hm].
      eapply reaches_step; [|exact Hr].
      apply contains_pattern; [exact Hinv|exact Hx].
  - intros [r' [Hr Hm]].
    induction Hr as [r|r r1 r' Hc _ IH].
    + apply missing_self; exact Hm.
    + apply (missing_contains b Hc). apply IH; exact Hm.
Qed.

Lemma visitUntil_predicate (p : BuiltinProtocolConformance -> bool)
  (l : list BuiltinProtocolConformance) (st : Visit unit) :
  fst (visitUntil (fun b s => (p b, s)) l st) = existsb p l.
Proof.
  revert st; induction l as [|b l IH]; intros st; simpl; [reflexivity|].
  unfold call_fn; simpl. destruct (p b); simpl; [reflexivity|apply IH].
Qed.

Lemma visitUntil_never_stops {S} (fn : Visitor S)
  (Hfn : forall b s, fst (fn b s) = false)
  (l : list BuiltinProtocolConformance) (st : Visit S) :
  fst (visitUntil fn l st) = false
  /\ snd (snd (visitUntil fn l st)) = snd st ++ l.
Proof.
  revert st; induction l as [|b l IH]; intros st; simpl.
  - split; [reflexivity|now rewrite app_nil_r].
  - unfold call_fn. specialize (Hfn b (fst st)).
    destruct (fn b (fst st)) as [stop s']; simpl in Hfn; subst stop.
    destruct (IH (s', snd st ++ [b])) as [H1 H2].
    split; [exact H1|]. rewrite H2; simpl. now rewrite <- app_assoc.
Qed.

Lemma hasMissingConformance_existsb (r : ProtocolConformanceRef) :
  hasMissingConformance r = existsb (fun _ => true) (missingConformances r).
Proof.
  unfold hasMissingConformance.
  rewrite forEachMissingConformance_visitUntil.
  apply (visitUntil_predicate (fun _ => true)).
Qed.

(** X9: [hasMissingConformance] answers true exactly when the reference
    itself, or a conformance nested in it through substitution maps and
    packs that are not invalid, is a missing builtin conformance. *)
Theorem hasMissingConformance_iff_reaches (r : ProtocolConformanceRef) :
  hasMissingConformance r = true
  <-> exists r' b, reaches r r' /\ isMissingConformance r' b.
Proof.
  rewrite hasMissingConformance_nonempty. split.
  - destruct (missingConformances r) as [|b l] eqn:E; [intros H; now elim H|].
    intros _. assert (Hb : In b (missingConformances r)) by (rewrite E; now left).
    apply missing_reaches in Hb as [r' H]. exists r', b; exact H.
  - intros [r' [b H]] E.
    assert (Hb : In b (missingConformances r)) by (apply missing_reaches; eauto).
    rewrite E in Hb; exact Hb.
Qed.

(** X10: a visitor that never asks to stop is handed every missing
    conformance the reference reaches, and nothing else; the traversal then
    answers false. *)
Theorem forEachMissingConformance_collects_all (S : Type) (fn : Visitor S)
  (s : S) (r : ProtocolConformanceRef) :
  (forall b s', fst (fn b s') = false) ->
  fst (forEachMissingConformance fn r (s, [])) = false
  /\ forall b, In b (visited fn r s)
               <-> exists r', reaches r r' /\ isMissingConformance r' b.
Proof.
  intros Hfn. unfold visited.
  rewrite forEachMissingConformance_visitUntil.
  destruct (visitUntil_never_stops fn Hfn (missingConformances r) (s, []))
    as [H1 H2].
  split; [exact H1|].
  intros b. rewrite H2; simpl. apply missing_reaches.
Qed.

(** X11: with a visitor that decides by a predicate on the conformance,
    [forEachMissingConformance] answers true exactly when some missing
    conformance the reference reaches satisfies the predicate. *)
Theorem forEachMissingConformance_predicate
  (p : BuiltinProtocolConformance -> bool) (r : ProtocolConformanceRef) :
  fst (forEachMissingConformance (fun b (s : unit) => (p b, s)) r (tt, [])) = true
  <-> exists r' b, reaches r r' /\ isMissingConformance r' b /\ p b = true.
Proof.
  rewrite forEachMissingConformance_visitUntil, visitUntil_predicate.
  rewrite existsb_exists. split.
  - intros [b [Hin Hp]]. apply missing_reaches in Hin as [r' [Hr Hm]].
    exists r', b; auto.
  - intros [r' [b [Hr [Hm Hp]]]]. exists b; split; [|exact Hp].
    apply missing_reaches; eauto.
Qed.

(** X12: [hasMissingConformance] composes over the payload: a concrete
    conformance has one when its root is a missing builtin conformance or an
    entry of its substitution map has one; a pack conformance has one when it
    is not invalid and one of its elements has one. *)
Theorem hasMissingConformance_compositional :
  (forall c : ProtocolConformance,
      hasMissingConformance (ConcreteRef c)
      = match getRootConformance c with
        | RootBuiltin b => isMissing b
        | _ => false
        end
        || existsb hasMissingConformance (getSubstitutionMapConformances c))
  /\ (forall p : PackConformance,
         hasMissingConformance (PackRef p)
         = negb (pack_isInvalid p)
           && existsb hasMissingConformance (getPatternConformances p)).
Proof.
  split.
  - intros [ty proto root subs].
    rewrite hasMissingConformance_existsb.
    cbn [missingConformances isInvalid isAbstract negb andb orb getRootConformance
           getSubstitutionMapConformances].
    rewrite existsb_app, existsb_flat_map. f_equal.
    + destruct root as [| |b]; try reflexivity.
      destruct (isMissing b); reflexivity.
    + apply existsb_pointwise; intros x. symmetry.
      apply hasMissingConformance_existsb.
  - intros [ty proto pats].
    rewrite hasMissingConformance_existsb.
    cbn [missingConformances isInvalid isAbstract negb andb getPatternConformances].
    rewrite ?isAbstract_PackRef in *.
    destruct (pack_isInvalid (mkPackConformance ty proto pats));
      cbn [orb negb andb]; [reflexivity|].
    rewrite existsb_flat_map.
    apply existsb_pointwise; intros x. symmetry.
    apply hasMissingConformance_existsb.
Qed.

Lemma visitUntil_log {S} (fn : Visitor S)
  (l : list BuiltinProtocolConformance) (st : Visit S)
  (b : BuiltinProtocolConformance) :
  In b (snd (snd (visitUntil fn l st))) -> In b (snd st) \/ In b l.
Proof.
  revert st; induction l as [|y l IH]; intros st; simpl; [auto|].
  unfold call_fn. destruct (fn y (fst st)) as [stop s'].
  destruct stop; simpl.
  - intros H. apply in_app_or in H as [H|[<-|[]]]; auto.
  - intros H. apply IH in H; simpl in H.
    destruct H as [H|H]; [|auto].
    apply in_app_or in H as [H|[<-|[]]]; auto.
Qed.

(** C8, as the code has it: whatever the visitor,
    [forEachMissingConformance] hands it at least one conformance exactly
    when [hasMissingConformance] answers true, which is exactly when the
    reference reaches a missing conformance, and everything handed to the
    visitor is a missing conformance the reference reaches; a concrete
    conformance with a missing conformance nested in its substitution map,
    at any depth through substitution maps and through the elements of packs
    that are not invalid, answers true; and an invalid or abstract reference
    answers false, its visitor never being called. *)
Theorem missing_conformance_closure :
  (forall (S : Type) (fn : Visitor S) (s : S) (r : ProtocolConformanceRef),
      (visited fn r s <> [] <-> hasMissingConformance r = true)
      /\ (visited fn r s <> []
          <-> exists r' b, reaches r r' /\ isMissingConformance r' b)
      /\ (forall b, In b (visited fn r s) ->
                    exists r', reaches r r' /\ isMissingConformance r' b))
  /\ (forall (c : ProtocolConformance) (r : ProtocolConformanceRef)
             (b : BuiltinProtocolConformance),
         nested (ConcreteRef c) r -> isMissingConformance r b ->
         hasMissingConformance (ConcreteRef c) = true)
  /\ (forall r : ProtocolConformanceRef,
         isInvalid r = true \/ isAbstract r = true ->
         hasMissingConformance r = false
         /\ forall (S : Type) (fn : Visitor S) (s : S), visited fn r s = []).
Proof.
  split; [|split].
  - intros S fn s r. split; [|split].
    + rewrite visited_nonempty, hasMissingConformance_nonempty; reflexivity.
    + rewrite visited_nonempty. split.
      * destruct (missingConformances r) as [|b l] eqn:E;
          [intros H; now elim H|intros _].
        assert (Hb : In b (missingConformances r)) by (rewrite E; now left).
        apply missing_reaches in Hb as [r' H]. exists r', b; exact H.
      * intros [r' [b H]] E.
        assert (Hb : In b (missingConformances r))
          by (apply missing_reaches; eauto).
        rewrite E in Hb; exact Hb.
    + intros b Hb. unfold visited in Hb.
      rewrite forEachMissingConformance_visitUntil in Hb.
      apply visitUntil_log in Hb as [[]|Hb].
      apply missing_reaches; exact Hb.
  - intros c r b Hn Hm.
    apply hasMissingConformance_nonempty.
    pose proof (missing_nested b Hn (missing_self Hm)) as Hin.
    intros E; rewrite E in Hin; exact Hin.
  - intros r H.
    assert (Hor : isInvalid r || isAbstract r = true)
      by (destruct H as [-> | ->]; [reflexivity|apply orb_true_r]).
    assert (Hnone : missingConformances r = []).
    { destruct r as [|a|c|p]; try reflexivity.
      - cbn in Hor; discriminate Hor.
      - cbn [missingConformances]. rewrite Hor; reflexivity. }
    split.
    + destruct (hasMissingConformance r) eqn:E; [|reflexivity].
      apply hasMissingConformance_nonempty in E; now elim E.
    + intros S fn s.
      destruct (visited fn r s) eqn:E; [reflexivity|].
      assert (Hne : visited fn r s <> []) by (rewrite E; discriminate).
      apply visited_nonempty in Hne; now elim Hne.
Qed.

(** *** Unavailable conformances *)

(** X13: [hasUnavailableConformance] answers true exactly when the
    reference itself, or a conformance nested in it through substitution
    maps and packs that are not invalid, is a concrete conformance declared
    on an unavailable extension. *)
Theorem hasUnavailableConformance_iff_reaches (r : ProtocolConformanceRef) :
  hasUnavailableConformance r = true
  <-> exists r', reaches r r' /\ isUnavailableConformance r'.
Proof.
  split.
  - induction r as [|a|ty proto root subs IH|ty proto pats IH]
      using ProtocolConformanceRef_nested_ind; intros H.
    + discriminate H.
    + discriminate H.
    + cbn [hasUnavailableConformance isInvalid isAbstract negb andb orb
             getSubstitutionMapConformances] in H.
      destruct (getRootDeclContext (mkProtocolConformance ty proto root subs))
        as [[|]|] eqn:Hdc.
      * exists (ConcreteRef (mkProtocolConformance ty proto root subs)).
        split; [apply reaches_here|]. eexists; split; [reflexivity|exact Hdc].
      * apply existsb_exists in H as [x [Hx Hu]].
        rewrite Forall_forall in IH.
        destruct (IH x Hx Hu) as [r' [Hr Hr']].
        exists r'; split; [|exact Hr'].
        eapply reaches_step; [apply contains_subMap; exact Hx|exact Hr].
      * apply existsb_exists in H as [x [Hx Hu]].
        rewrite Forall_forall in IH.
        destruct (IH x Hx Hu) as [r' [Hr Hr']].
        exists r'; split; [|exact Hr'].
        eapply reaches_step; [apply contains_subMap; exact Hx|exact Hr].
    + cbn [hasUnavailableConformance isInvalid isAbstract negb andb
             getPatternConformances] in H.
      rewrite ?isAbstract_PackRef in *.
      destruct (pack_isInvalid (mkPackConformance ty proto pats)) eqn:Hinv;
        cbn [orb] in H; [discriminate H|].
      apply existsb_exists in H as [x [Hx Hu]].
      rewrite Forall_forall in IH.
      destruct (IH x Hx Hu) as [r' [Hr Hr']].
      exists r'; split; [|exact Hr'].
      eapply reaches_step; [apply contains_pattern; eauto|exact Hr].
  - intros [r' [Hr Hu]].
    induction Hr as [r|r r1 r' Hc _ IH].
    + destruct Hu as [c [-> Hdc]]. destruct c as [ty proto root subs].
      cbn [hasUnavailableConformance isInvalid isAbstract negb andb orb].
      rewrite Hdc; reflexivity.
    + specialize (IH Hu).
      destruct Hc as [[ty proto root subs] x Hx|[ty proto pats] x Hvalid Hx].
      * cbn [hasUnavailableConformance isInvalid isAbstract negb andb orb
               getSubstitutionMapConformances] in *.
        destruct (getRootDeclContext _) as [[|]|]; try reflexivity;
          apply existsb_exists; exists x; auto.
      * cbn [hasUnavailableConformance isInvalid isAbstract negb andb
               getPatternConformances] in *.
        rewrite ?isAbstract_PackRef in *.
        rewrite Hvalid; cbn [orb].
        apply existsb_exists; exists x; auto.
Qed.

(** *** Isolated conformances *)

Section Isolated.
Variable S : Type.
Variable body : RefVisitor S.

Lemma visitUntilRef_app (l1 l2 : list ProtocolConformanceRef) (st : RefVisit S) :
  visitUntilRef body (l1 ++ l2) st
  = let (stop, st') := visitUntilRef body l1 st in
    if stop then (true, st') else visitUntilRef body l2 st'.
Proof.
  revert st; induction l1 as [|x l1 IH]; intros st; simpl; [reflexivity|].
  destruct (call_body body x st) as [[|] st']; [reflexivity|apply IH].
Qed.

Lemma anyOfRef_visitUntilRef (l : list ProtocolConformanceRef) :
  Forall (fun r => forall st,
              forEachIsolatedConformance body r st
              = visitUntilRef body (isolatedConformances r) st) l ->
  forall st,
    anyOfRef (forEachIsolatedConformance body) l st
    = visitUntilRef body (flat_map isolatedConformances l) st.
Proof.
  induction 1 as [|r l Hr _ IH]; intros st; simpl; [reflexivity|].
  rewrite visitUntilRef_app, Hr.
  destruct (visitUntilRef body (isolatedConformances r) st) as [[|] st'];
    [reflexivity|apply IH].
Qed.

(** The traversal hands the visitor the isolated conformances in order, up
    to the first one at which the visitor asks to stop. *)
Lemma forEachIsolatedConformance_visitUntilRef (r : ProtocolConformanceRef) :
  forall st,
    forEachIsolatedConformance body r st
    = visitUntilRef body (isolatedConformances r) st.
Proof.
  induction r as [|a|ty proto root subs IH|ty proto pats IH]
    using ProtocolConformanceRef_nested_ind; intros st.
  - reflexivity.
  - reflexivity.
  - cbn [forEachIsolatedConformance isolatedConformances isInvalid isAbstract negb andb
           orb getRootConformance getSubstitutionMapConformances].
    rewrite visitUntilRef_app.
    destruct root as [| |b]; cbn [visitUntilRef];
      try (apply anyOfRef_visitUntilRef; exact IH).
    destruct (normal_isIsolated _); cbn [visitUntilRef].
    + destruct (call_body body _ st) as [[|] st1]; [reflexivity|].
      apply anyOfRef_visitUntilRef; exact IH.
    + apply anyOfRef_visitUntilRef; exact IH.
  - cbn [forEachIsolatedConformance isolatedConformances isInvalid isAbstract negb andb
           getPatternConformances].
    rewrite ?isAbstract_PackRef in *.
    destruct (pack_isInvalid (mkPackConformance ty proto pats));
      cbn [orb]; [reflexivity|].
    apply anyOfRef_visitUntilRef; exact IH.
Qed.

Lemma visitUntilRef_log (l : list ProtocolConformanceRef) (st : RefVisit S)
  (x : ProtocolConformanceRef) :
  In x (snd (snd (visitUntilRef body l st))) -> In x (snd st) \/ In x l.
Proof.
  revert st; induction l as [|y l IH]; intros st; simpl; [auto|].
  unfold call_body. destruct (body y (fst st)) as [stop s'].
  destruct stop; simpl.
  - intros H. apply in_app_or in H as [H|[<-|[]]]; auto.
  - intros H. apply IH in H; simpl in H.
    destruct H as [H|H]; [|auto].
    apply in_app_or in H as [H|[<-|[]]]; auto.
Qed.

End Isolated.

Lemma isolated_reaches (r x : ProtocolConformanceRef) :
  In x (isolatedConformances r)
  <-> reaches r x /\ isIsolatedConformance x.
Proof.
  split.
  - revert x.
    induction r as [|a|ty proto root subs IH|ty proto pats IH]
      using ProtocolConformanceRef_nested_ind; intros x Hx.
    + destruct Hx.
    + destruct Hx.
    + cbn [isolatedConformances isInvalid isAbstract negb andb orb getRootConformance
             getSubstitutionMapConformances] in Hx.
      apply in_app_or in Hx as [Hx|Hx].
      * destruct root as [| |b0]; try destruct Hx.
        destruct (normal_isIsolated _) eqn:Hi; [|destruct Hx].
        destruct Hx as [<-|[]].
        split; [apply reaches_here|].
        eexists; repeat split; auto.
      * apply in_flat_map in Hx as [y [Hy Hx]].
        rewrite Forall_forall in IH.
        destruct (IH y Hy x Hx) as [Hr Hi].
        split; [|exact Hi].
        eapply reaches_step; [apply contains_subMap; exact Hy|exact Hr].
    + cbn [isolatedConformances isInvalid isAbstract negb andb getPatternConformances] in Hx.
      rewrite ?isAbstract_PackRef in *.
      destruct (pack_isInvalid (mkPackConformance ty proto pats)) eqn:Hinv;
        cbn [orb] in Hx; [destruct Hx|].
      apply in_flat_map in Hx as [y [Hy Hx]].
      rewrite Forall_forall in IH.
      destruct (IH y Hy x Hx) as [Hr Hi].
      split; [|exact Hi].
      eapply reaches_step; [apply contains_pattern; eauto|exact Hr].
  - intros [Hr Hi].
    induction Hr as [r|r r1 r' Hc _ IH].
    + destruct Hi as [[ty proto root subs] [-> [Hroot Hiso]]].
      cbn [isolatedConformances isInvalid isAbstract negb andb orb getRootConformance] in *.
      subst root. rewrite Hiso. now left.
    + specialize (IH Hi).
      destruct Hc as [[ty proto root subs] y Hy|[ty proto pats] y Hvalid Hy].
      * cbn [isolatedConformances isInvalid isAbstract negb andb orb
               getSubstitutionMapConformances].
        apply in_or_app; right. apply in_flat_map; exists y; auto.
      * cbn [isolatedConformances isInvalid isAbstract negb andb getPatternConformances].
        rewrite ?isAbstract_PackRef in *.
        rewrite Hvalid; cbn [orb].
        apply in_flat_map; exists y; auto.
Qed.

(** X14: whatever the visitor, every reference [forEachIsolatedConformance]
    hands it is an isolated conformance the reference reaches; and when the
    reference reaches no isolated conformance the traversal answers false
    without calling the visitor or touching its state. *)
Theorem forEachIsolatedConformance_visits_isolated (S : Type)
  (body : RefVisitor S) (s : S) (r : ProtocolConformanceRef) :
  (forall x, In x (visitedIsolated body r s) ->
             reaches r x /\ isIsolatedConformance x)
  /\ ((forall x, reaches r x -> ~ isIsolatedConformance x) ->
      forEachIsolatedConformance body r (s, []) = (false, (s, []))).
Proof.
  unfold visitedIsolated.
  rewrite forEachIsolatedConformance_visitUntilRef. split.
  - intros x Hx. apply visitUntilRef_log in Hx as [[]|Hx].
    apply isolated_reaches; exact Hx.
  - intros Hnone.
    destruct (isolatedConformances r) as [|x l] eqn:E; [reflexivity|].
    assert (Hx : In x (isolatedConformances r)) by (rewrite E; now left).
    apply isolated_reaches in Hx as [Hr Hi]. elim (Hnone x Hr Hi).
Qed.

Lemma visitUntilRef_predicate (p : ProtocolConformanceRef -> bool)
  (l : list ProtocolConformanceRef) (st : RefVisit unit) :
  fst (visitUntilRef (fun x s => (p x, s)) l st) = existsb p l.
Proof.
  revert st; induction l as [|x l IH]; intros st; simpl; [reflexivity|].
  unfold call_body; simpl. destruct (p x); simpl; [reflexivity|apply IH].
Qed.

(** X15: with a visitor that decides by a predicate on the reference,
    [forEachIsolatedConformance] answers true exactly when some isolated
    conformance the reference reaches satisfies the predicate. *)
Theorem forEachIsolatedConformance_predicate
  (p : ProtocolConformanceRef -> bool) (r : ProtocolConformanceRef) :
  fst (forEachIsolatedConformance (fun x (s : unit) => (p x, s)) r (tt, [])) = true
  <-> exists x, reaches r x /\ isIsolatedConformance x /\ p x = true.
Proof.
  rewrite forEachIsolatedConformance_visitUntilRef, visitUntilRef_predicate.
  rewrite existsb_exists. split.
  - intros [x [Hin Hp]]. apply isolated_reaches in Hin as [Hr Hi].
    exists x; auto.
  - intros [x [Hr [Hi Hp]]]. exists x; split; [|exact Hp].
    apply isolated_reaches; auto.
Qed.

(** *** Mapping out of context *)

(** X16: [mapConformanceOutOfContext] returns on every reference, without
    lookup; an abstract reference stays abstract, with the same protocol and
    its type mapped out of context, and the null reference is returned
    unchanged. *)
Theorem mapConformanceOutOfContext_abstract :
  (forall r, exists r', mapConformanceOutOfContext r = ([], Returned r'))
  /\ (forall a r',
         mapConformanceOutOfContext (AbstractRef a) = ([], Returned r') ->
         isAbstract r' = true
         /\ getProtocol r' = getProtocol (AbstractRef a)
         /\ getType r'
            = ([], Returned (Some (mapTypeOutOfContext (abstract_getType a)))))
  /\ mapConformanceOutOfContext NullRef = ([], Returned NullRef).
Proof.
  split; [|split].
  - intros [|a|c|p]; unfold mapConformanceOutOfContext; unfold_variant; simpl;
      try (destruct (pack_isInvalid p)); simpl; eexists; reflexivity.
  - intros a r' H. unfold mapConformanceOutOfContext in H; simpl in H.
    unfold ret in H. inversion H; subst r'. repeat split.
  - reflexivity.
Qed.

End TraversalProperties.

(** * The toy graph: instances of the further properties *)

Import ToyRest.

Lemma toy_canonical_sugarFree (t : ToyType) : sugarFree (canonical t) = true.
Proof. induction t; simpl; auto. Qed.

Lemma toy_canonical_form_laws : @CanonicalFormLaws Toy.types Toy.collaborators.
Proof.
  constructor; simpl.
  - apply toy_canonical_sugarFree.
  - intros [ty proto root subs]; simpl. apply toy_canonical_sugarFree.
  - intros [ty proto pats]; simpl. apply toy_canonical_sugarFree.
Qed.

(** [T: Equatable] under [T := Int]: one local lookup, which finds the
    concrete [Int: Equatable]. *)
Lemma subst_local_lookup_witness :
  subst abstractT_Equatable T toInt
  = ([LocalLookup T Int "Equatable" 0],
     Returned (ConcreteRef (@mkProtocolConformance types Int "Equatable"
                              RootNormal []))).
Proof.
  apply (@subst_local_lookup types collaborators
           (@mkAbstractConformance types T "Equatable") T toInt);
    reflexivity.
Defined.

(** [Array: Collection] asked by name: [Count] is no associated type,
    [Element] is. *)
Lemma getTypeWitnessByName_valid_witness :
  (exists proto,
      getProtocol (ConcreteRef array_Collection) = ([], Returned proto)
      /\ match ProtocolDecl_getAssociatedType proto "Count" with
         | None =>
             getTypeWitnessByName (ConcreteRef array_Collection)
               (Nominal "Array") "Count"
             = ([], Returned (Some ErrorType_get))
         | Some assocType =>
             getTypeWitnessByName (ConcreteRef array_Collection)
               (Nominal "Array") "Count"
             = getTypeWitness (ConcreteRef array_Collection) (Nominal "Array")
                 assocType []
         end)
  /\ (exists proto,
         getProtocol (ConcreteRef array_Collection) = ([], Returned proto)
         /\ match ProtocolDecl_getAssociatedType proto "Element" with
            | None =>
                getTypeWitnessByName (ConcreteRef array_Collection)
                  (Nominal "Array") "Element"
                = ([], Returned (Some ErrorType_get))
            | Some assocType =>
                getTypeWitnessByName (ConcreteRef array_Collection)
                  (Nominal "Array") "Element"
                = getTypeWitness (ConcreteRef array_Collection) (Nominal "Array")
                    assocType []
            end).
Proof.
  split.
  - exact (@getTypeWitnessByName_valid types collaborators
             (ConcreteRef array_Collection) (Nominal "Array") "Count" eq_refl).
  - exact (@getTypeWitnessByName_valid types collaborators
             (ConcreteRef array_Collection) (Nominal "Array") "Element" eq_refl).
Defined.

(** [T: Equatable] asked for [==]: the requirement itself, under the
    protocol substitutions of [Int]. *)
Lemma getWitnessByName_valid_witness :
  exists proto,
    getProtocol abstractT_Equatable = ([], Returned proto)
    /\ getWitnessByName abstractT_Equatable Int "=="
       = ([], Returned
                match ProtocolDecl_getSingleRequirement proto "==" with
                | None => None
                | Some requirement =>
                    Some (requirement,
                          getProtocolSubstitutions proto Int abstractT_Equatable)
                end).
Proof.
  exact (@getWitnessByName_valid types collaborators abstractT_Equatable Int "=="
           eq_refl).
Defined.

(** [T: P] asked for the conformance of [T.Element] to [Q]: abstract, no
    lookup; asked at the archetype of [T]: one global lookup. *)
Lemma getAssociatedConformance_abstract_witness :
  getAssociatedConformance abstractT_P T (DependentMember T Element) "Q"
  = ([], Returned (AbstractRef (@mkAbstractConformance types
                                  (DependentMember T Element) "Q")))
  /\ getAssociatedConformance archetypeT_P (PrimaryArchetype 1 T)
       (DependentMember T Element) "Q"
     = ([GlobalLookup (PrimaryArchetype 1 (DependentMember T Element)) "Q" false],
        Returned NullRef).
Proof.
  split.
  - apply (proj1 (@getAssociatedConformance_abstract types collaborators
                    (@mkAbstractConformance types T "P") T
                    (DependentMember T Element) "Q")).
    reflexivity.
  - apply (proj1 (proj2 (@getAssociatedConformance_abstract types collaborators
                           (@mkAbstractConformance types (PrimaryArchetype 1 T) "P")
                           (PrimaryArchetype 1 T) (DependentMember T Element) "Q"))
             (PrimaryArchetype 1 T) eq_refl).
Defined.

(** [Array: Collection] witnesses [Element] by [T]. *)
Lemma getTypeWitness_concrete_never_null_witness :
  getTypeWitness (ConcreteRef array_Collection) (Nominal "Array") Element []
  = ([], Returned (Some T)).
Proof.
  apply (proj2 (@getTypeWitness_concrete_never_null types collaborators
                  array_Collection (Nominal "Array") Element [] eq_refl)
           T eq_refl eq_refl).
Defined.

Lemma canonical_form_isCanonical_witness :
  exists r',
    getCanonicalConformanceRef aliasedT_P = ([], Returned r')
    /\ isCanonical r' = ([], Returned true).
Proof.
  exact (canonical_form_isCanonical toy_canonical_form_laws aliasedT_P).
Defined.

Lemma toy_reaches_missing :
  reaches (ConcreteRef dictionary_Sendable) missingConformance
  /\ isMissingConformance missingConformance missingSendable.
Proof.
  split.
  - apply reaches_step with (r1 := ConcreteRef arrayOfInt_Sendable).
    + apply contains_subMap; simpl; auto.
    + apply reaches_step with (r1 := missingConformance).
      * apply contains_subMap; simpl; auto.
      * apply reaches_here.
  - eexists; repeat split.
Qed.

(** [Dictionary: Sendable] holds [Array: Sendable] in its substitution map,
    which holds the missing [Int: Sendable] in its own. *)
Lemma missing_conformance_closure_witness :
  hasMissingConformance (ConcreteRef dictionary_Sendable) = true
  /\ (visited (fun _ (n : nat) => (false, Datatypes.S n))
        (ConcreteRef dictionary_Sendable) 0 <> [])
  /\ hasMissingConformance (PackRef invalidPack) = false.
Proof.
  split; [|split].
  - apply (proj1 (proj2 (@missing_conformance_closure types collaborators))
             dictionary_Sendable missingConformance missingSendable).
    + apply nested_deeper with (r1 := ConcreteRef arrayOfInt_Sendable).
      * apply nested_direct; simpl; auto.
      * apply contains_subMap; simpl; auto.
    + exists (@mkProtocolConformance types Int "Sendable"
                (RootBuiltin missingSendable) []).
      repeat split.
  - apply (proj1 (proj2 (proj1 (@missing_conformance_closure types collaborators)
                           nat (fun _ (n : nat) => (false, Datatypes.S n)) 0
                           (ConcreteRef dictionary_Sendable)))).
    exists missingConformance, missingSendable. exact toy_reaches_missing.
  - apply (proj2 (proj2 (@missing_conformance_closure types collaborators))).
    left; reflexivity.
Defined.

(** C8 as stated fails where the nesting passes through an invalid pack: the
    substitution map of [Outer: Sendable] holds the pack [(missing, null)],
    whose first element is a missing conformance, and
    [hasMissingConformance] answers false. *)
Lemma missing_in_invalid_pack_counterexample :
  In (PackRef invalidPack) (getSubstitutionMapConformances outer_Sendable)
  /\ In missingConformance (getPatternConformances invalidPack)
  /\ isMissingConformance missingConformance missingSendable
  /\ hasMissingConformance (ConcreteRef outer_Sendable) = false.
Proof.
  split; [simpl; auto|split; [simpl; auto|split; [|reflexivity]]].
  eexists; repeat split.
Qed.

Lemma hasMissingConformance_iff_reaches_witness :
  hasMissingConformance (ConcreteRef dictionary_Sendable) = true.
Proof.
  apply (proj2 (@hasMissingConformance_iff_reaches types collaborators
                  (ConcreteRef dictionary_Sendable))).
  exists missingConformance, missingSendable. exact toy_reaches_missing.
Defined.

(** A visitor that counts and never stops, on [Dictionary: Sendable]. *)
Lemma forEachMissingConformance_collects_all_witness :
  fst (forEachMissingConformance (fun _ (n : nat) => (false, Datatypes.S n))
         (ConcreteRef dictionary_Sendable) (0, [])) = false
  /\ forall b,
       In b (visited (fun _ (n : nat) => (false, Datatypes.S n))
               (ConcreteRef dictionary_Sendable) 0)
       <-> exists r', reaches (ConcreteRef dictionary_Sendable) r'
                      /\ isMissingConformance r' b.
Proof.
  apply (@forEachMissingConformance_collects_all types collaborators nat
           (fun _ (n : nat) => (false, Datatypes.S n)) 0
           (ConcreteRef dictionary_Sendable)).
  reflexivity.
Defined.

Lemma forEachMissingConformance_predicate_witness :
  fst (forEachMissingConformance
         (fun b (s : unit) => (Nat.eqb (builtin_id b) 0, s))
         (ConcreteRef dictionary_Sendable) (tt, [])) = true.
Proof.
  apply (proj2 (@forEachMissingConformance_predicate types collaborators
                  (fun b => Nat.eqb (builtin_id b) 0)
                  (ConcreteRef dictionary_Sendable))).
  exists missingConformance, missingSendable.
  split; [apply toy_reaches_missing|split; [apply toy_reaches_missing|reflexivity]].
Defined.

Lemma toy_reaches_box (x : Ref) :
  In x [int_P; legacy_P; view_P] -> reaches (PackRef validPack) x.
Proof.
  intros Hx.
  apply reaches_step with (r1 := box_P).
  - apply contains_pattern; simpl; auto.
  - apply reaches_step with (r1 := x).
    + apply contains_subMap; exact Hx.
    + apply reaches_here.
Qed.

(** The pack [(Int: P, Box: P)] reaches [Legacy: P], declared on an
    unavailable extension. *)
Lemma hasUnavailableConformance_iff_reaches_witness :
  hasUnavailableConformance (PackRef validPack) = true.
Proof.
  apply (proj2 (@hasUnavailableConformance_iff_reaches types collaborators
                  traversal (PackRef validPack))).
  exists legacy_P; split.
  - apply toy_reaches_box; simpl; auto.
  - eexists; split; reflexivity.
Defined.

Lemma toy_int_P_reaches (x : Ref) : reaches int_P x -> x = int_P.
Proof.
  intros H. inversion H as [|r r1 r' Hc Hr]; subst; [reflexivity|].
  inversion Hc as [c y Hy|]; subst. destruct Hy.
Qed.

(** [Int: P] reaches no isolated conformance: the visitor is not called. *)
Lemma forEachIsolatedConformance_visits_isolated_witness :
  forEachIsolatedConformance (fun _ (n : nat) => (true, Datatypes.S n)) int_P (0, [])
  = (false, (0, [])).
Proof.
  apply (proj2 (@forEachIsolatedConformance_visits_isolated types collaborators
                  traversal nat (fun _ (n : nat) => (true, Datatypes.S n)) 0 int_P)).
  intros x Hx [c [Hc [_ Hiso]]].
  apply toy_int_P_reaches in Hx. subst x.
  inversion Hc; subst c. discriminate Hiso.
Defined.

(** The pack reaches the isolated [View: P]. *)
Lemma forEachIsolatedConformance_predicate_witness :
  fst (forEachIsolatedConformance (fun _ (s : unit) => (true, s))
         (PackRef validPack) (tt, [])) = true.
Proof.
  apply (proj2 (@forEachIsolatedConformance_predicate types collaborators
                  traversal (fun _ => true) (PackRef validPack))).
  exists view_P; split; [|split].
  - apply toy_reaches_box; simpl; auto.
  - eexists; repeat split.
  - reflexivity.
Defined.

(** * FeatureSet.cpp *)

Module FeatureSetProperties.
Import FeatureSet.

(** ** Isolated deinit *)

Lemma usesFeatureIsolatedDeinit_destructor_chain (dd : DestructorDecl) :
  usesFeatureIsolatedDeinit_destructor dd = true
  <-> exists dd', deinitChain dd dd' /\ hasExplicitIsolation dd' = true.
Proof.
  split.
  - induction dd as [explicitIsolation superDD IH]
      using (fix ind (P : DestructorDecl -> Prop)
               (H : forall b o,
                   (forall s, o = Some s -> P s) -> P (mkDestructorDecl b o))
               (dd : DestructorDecl) {struct dd} : P dd :=
               match dd with
               | mkDestructorDecl b o =>
                   H b o (fun s E =>
                            match o as o' return o' = Some s -> P s with
                            | Some s' =>
                                fun E' =>
                                  match E' in _ = y
                                        return match y with
                                               | Some z => P z
                                               | None => True
                                               end
                                  with eq_refl => ind P H s' end
                            | None => fun E' => match E' with end
                            end E)
               end).
    simpl. destruct explicitIsolation.
    + intros _. exists (mkDestructorDecl true superDD).
      split; [apply deinitChain_here|reflexivity].
    + destruct superDD as [s|]; [|discriminate].
      intros H. destruct (IH s eq_refl H) as [dd' [Hc Hi]].
      exists dd'; split; [apply deinitChain_super; exact Hc|exact Hi].
  - intros [dd' [Hc Hi]].
    induction Hc as [dd|b s dd _ IH].
    + destruct dd as [b o]; simpl in *. now rewrite Hi.
    + simpl. destruct b; [reflexivity|apply IH; exact Hi].
Qed.

(** X17: a destructor uses the isolated-deinit feature exactly when it, or
    a destructor above it on the chain of super deinits, has an explicit
    isolation attribute; a class uses it exactly when its access is open and
    its destructor does; no other declaration uses it. *)
Theorem usesFeatureIsolatedDeinit_spec (d : Decl) :
  match getShape d with
  | Destructor dd =>
      usesFeatureIsolatedDeinit d = true
      <-> exists dd', deinitChain dd dd' /\ hasExplicitIsolation dd' = true
  | ClassDecl access dtor =>
      usesFeatureIsolatedDeinit d = true
      <-> access = Open
          /\ exists dd', deinitChain dtor dd' /\ hasExplicitIsolation dd' = true
  | _ => usesFeatureIsolatedDeinit d = false
  end.
Proof.
  destruct d as [shape abi attr dc]; destruct shape as [l|st|access dtor|dd|];
    unfold usesFeatureIsolatedDeinit; simpl; try reflexivity.
  - rewrite andb_true_iff, usesFeatureIsolatedDeinit_destructor_chain.
    split; intros [Ha Hd]; (split; [|exact Hd]).
    + destruct access; simpl in Ha; try discriminate; reflexivity.
    + subst access; reflexivity.
  - apply usesFeatureIsolatedDeinit_destructor_chain.
Qed.

(** ** Feature suppression *)

(** X18: [hasFeatureSuppressionAttribute] holds exactly when the declaration
    carries the suppression attribute with the asked polarity and the
    feature's name among its features; so no declaration both disallows and
    allows the suppression of the same feature. *)
Theorem featureSuppression_exclusive (featureName : string) (decl : Decl) :
  (forall inverted,
      hasFeatureSuppressionAttribute decl featureName inverted = true
      <-> exists attr,
            getSuppressionAttr decl = Some attr
            /\ getInverted attr = inverted
            /\ In featureName (getSuppressedFeatures attr))
  /\ disallowFeatureSuppression featureName decl
     && allowFeatureSuppression featureName decl = false.
Proof.
  split.
  - intros inverted. unfold hasFeatureSuppressionAttribute.
    destruct (getSuppressionAttr decl) as [attr|].
    + destruct (Bool.eqb (getInverted attr) inverted) eqn:E; simpl.
      * apply Bool.eqb_prop in E. rewrite existsb_exists. split.
        -- intros [x [Hx Hn]]. apply String.eqb_eq in Hn; subst x.
           exists attr; auto.
        -- intros [a [Ha [_ Hin]]]. inversion Ha; subst a.
           exists featureName; split; [exact Hin|apply String.eqb_refl].
      * split; [discriminate|].
        intros [a [Ha [Hi _]]]. inversion Ha; subst a.
        rewrite Hi, Bool.eqb_reflx in E. discriminate.
    + split; [discriminate|]. intros [a [Ha _]]. discriminate.
  - unfold disallowFeatureSuppression, allowFeatureSuppression,
      hasFeatureSuppressionAttribute.
    destruct (getSuppressionAttr decl) as [attr|]; [|reflexivity].
    destruct (getInverted attr); simpl; [apply andb_false_r|reflexivity].
Qed.

(** ** Collecting features *)

Section Collect.
Context {B : FixedBitSet}.
Variable L : FixedBitSetLaws B.
Variable numFeatures : N.
Variable table : FeatureTable.

Lemma collectEntry_required (abiDecl : option Decl) (decl : Decl)
  (operation : InsertOrRemove) (features : FeatureSet) (e : FeatureEntry) (j : N) :
  bits_contains (required (collectEntry numFeatures abiDecl decl operation features e)) j
  = if isInsert operation
    then requiredHit abiDecl decl j e || bits_contains (required features) j
    else negb (requiredHit abiDecl decl j e) && bits_contains (required features) j.
Proof.
  unfold collectEntry, requiredHit, goesRequired.
  destruct (CHECK abiDecl decl (usesFeature e)); simpl;
    [|destruct operation; reflexivity].
  destruct (featureKind e); simpl.
  - destruct operation; simpl;
      [apply (contains_insert L)|apply (contains_remove L)].
  - destruct (CHECK_ARG abiDecl decl disallowFeatureSuppression (featureName e));
      simpl; destruct operation; simpl;
        try apply (contains_insert L); try apply (contains_remove L);
          reflexivity.
  - destruct (CHECK_ARG abiDecl decl allowFeatureSuppression (featureName e));
      simpl; destruct operation; simpl;
        try apply (contains_insert L); try apply (contains_remove L);
          reflexivity.
Qed.

Lemma collectEntry_suppressible (abiDecl : option Decl) (decl : Decl)
  (operation : InsertOrRemove) (features : FeatureSet) (e : FeatureEntry) (j : N) :
  bits_contains (suppressible (collectEntry numFeatures abiDecl decl operation features e)) j
  = if isInsert operation
    then suppressibleHit numFeatures abiDecl decl j e || bits_contains (suppressible features) j
    else negb (suppressibleHit numFeatures abiDecl decl j e)
         && bits_contains (suppressible features) j.
Proof.
  unfold collectEntry, suppressibleHit, goesRequired.
  destruct (CHECK abiDecl decl (usesFeature e)); simpl;
    [|destruct operation; reflexivity].
  destruct (featureKind e); simpl.
  - destruct operation; reflexivity.
  - destruct (CHECK_ARG abiDecl decl disallowFeatureSuppression (featureName e));
      simpl; destruct operation; simpl;
        try apply (contains_insert L); try apply (contains_remove L);
          reflexivity.
  - destruct (CHECK_ARG abiDecl decl allowFeatureSuppression (featureName e));
      simpl; destruct operation; simpl;
        try apply (contains_insert L); try apply (contains_remove L);
          reflexivity.
Qed.

Lemma fold_required (abiDecl : option Decl) (decl : Decl)
  (operation : InsertOrRemove) (tbl : FeatureTable) (features : FeatureSet) (j : N) :
  bits_contains
    (required (fold_left (collectEntry numFeatures abiDecl decl operation) tbl features)) j
  = if isInsert operation
    then existsb (requiredHit abiDecl decl j) tbl || bits_contains (required features) j
    else negb (existsb (requiredHit abiDecl decl j) tbl)
         && bits_contains (required features) j.
Proof.
  revert features; induction tbl as [|e tbl IH]; intros features; simpl.
  - destruct operation; reflexivity.
  - rewrite IH, collectEntry_required.
    destruct operation; simpl;
      destruct (requiredHit abiDecl decl j e),
               (existsb (requiredHit abiDecl decl j) tbl),
               (bits_contains (required features) j); reflexivity.
Qed.

Lemma fold_suppressible (abiDecl : option Decl) (decl : Decl)
  (operation : InsertOrRemove) (tbl : FeatureTable) (features : FeatureSet) (j : N) :
  bits_contains
    (suppressible (fold_left (collectEntry numFeatures abiDecl decl operation) tbl features)) j
  = if isInsert operation
    then existsb (suppressibleHit numFeatures abiDecl decl j) tbl
         || bits_contains (suppressible features) j
    else negb (existsb (suppressibleHit numFeatures abiDecl decl j) tbl)
         && bits_contains (suppressible features) j.
Proof.
  revert features; induction tbl as [|e tbl IH]; intros features; simpl.
  - destruct operation; reflexivity.
  - rewrite IH, collectEntry_suppressible.
    destruct operation; simpl;
      destruct (suppressibleHit numFeatures abiDecl decl j e),
               (existsb (suppressibleHit numFeatures abiDecl decl j) tbl),
               (bits_contains (suppressible features) j); reflexivity.
Qed.

(** Removing what a declaration uses clears exactly the bits that inserting
    what it uses into the empty set would set. *)
Lemma collect_Remove_required (decl : Decl) (features : FeatureSet) (j : N) :
  bits_contains (required (collectFeaturesUsed numFeatures table decl Remove features)) j
  = negb (bits_contains (required (featuresUsed numFeatures table decl)) j)
    && bits_contains (required features) j.
Proof.
  unfold featuresUsed, collectFeaturesUsed.
  rewrite !fold_required; simpl.
  rewrite (contains_noBits L), orb_false_r. reflexivity.
Qed.

Lemma collect_Remove_suppressible (decl : Decl) (features : FeatureSet) (j : N) :
  bits_contains (suppressible (collectFeaturesUsed numFeatures table decl Remove features)) j
  = negb (bits_contains (suppressible (featuresUsed numFeatures table decl)) j)
    && bits_contains (suppressible features) j.
Proof.
  unfold featuresUsed, collectFeaturesUsed.
  rewrite !fold_suppressible; simpl.
  rewrite (contains_noBits L), orb_false_r. reflexivity.
Qed.

Lemma collect_Insert_required (decl : Decl) (features : FeatureSet) (j : N) :
  bits_contains (required (collectFeaturesUsed numFeatures table decl Insert features)) j
  = bits_contains (required (featuresUsed numFeatures table decl)) j
    || bits_contains (required features) j.
Proof.
  unfold featuresUsed, collectFeaturesUsed.
  rewrite !fold_required; simpl.
  rewrite (contains_noBits L), orb_false_r. reflexivity.
Qed.

Lemma collect_Insert_suppressible (decl : Decl) (features : FeatureSet) (j : N) :
  bits_contains (suppressible (collectFeaturesUsed numFeatures table decl Insert features)) j
  = bits_contains (suppressible (featuresUsed numFeatures table decl)) j
    || bits_contains (suppressible features) j.
Proof.
  unfold featuresUsed, collectFeaturesUsed.
  rewrite !fold_suppressible; simpl.
  rewrite (contains_noBits L), orb_false_r. reflexivity.
Qed.

Lemma removeEnclosing_unfold (d : Decl) (features : FeatureSet) :
  removeEnclosing numFeatures table d features
  = if empty features then features
    else match nextEnclosing d with
         | Some outer =>
             removeEnclosing numFeatures table outer
               (collectFeaturesUsed numFeatures table outer Remove features)
         | None => features
         end.
Proof.
  destruct d as [shape abi attr dc]; destruct shape; destruct dc; reflexivity.
Qed.

Lemma enclosingDecls_unfold (d : Decl) :
  enclosingDecls d
  = match nextEnclosing d with
    | Some outer => outer :: enclosingDecls outer
    | None => []
    end.
Proof.
  destruct d as [shape abi attr dc]; destruct shape; destruct dc; reflexivity.
Qed.

Lemma andb_swap (a b c : bool) : a && (b && c) = b && a && c.
Proof. destruct a, b, c; reflexivity. Qed.

Lemma enclosing_ind (P : Decl -> Prop) :
  (forall d, (forall outer, nextEnclosing d = Some outer -> P outer) -> P d) ->
  forall d, P d.
Proof.
  intros H. fix IH 1. intros [shape abi attr dc]. apply H.
  destruct shape as [anchors|storage|access dtor|dd|]; simpl; intros outer E;
    try (destruct dc as [o|]; [injection E as <-; apply IH|discriminate E]).
  injection E as <-. apply IH.
Qed.

Lemma removeEnclosing_contains (d : Decl) :
  forall (features : FeatureSet) (j : N),
    bits_contains (required (removeEnclosing numFeatures table d features)) j
    = forallb (fun outer =>
                 negb (bits_contains
                         (required (featuresUsed numFeatures table outer)) j))
        (enclosingDecls d)
      && bits_contains (required features) j
    /\ bits_contains (suppressible (removeEnclosing numFeatures table d features)) j
       = forallb (fun outer =>
                    negb (bits_contains
                            (suppressible (featuresUsed numFeatures table outer)) j))
           (enclosingDecls d)
         && bits_contains (suppressible features) j.
Proof.
  induction d as [d IH] using enclosing_ind; intros features j.
  rewrite removeEnclosing_unfold, enclosingDecls_unfold.
  destruct (empty features) eqn:E.
  - destruct (empty_contains L _ _ E j) as [Hr Hs].
    rewrite Hr, Hs, !andb_false_r. split; reflexivity.
  - destruct (nextEnclosing d) as [outer|] eqn:Hn; [|split; reflexivity].
    destruct (IH outer eq_refl
                (collectFeaturesUsed numFeatures table outer Remove features) j)
      as [Hr Hs].
    rewrite Hr, Hs, collect_Remove_required, collect_Remove_suppressible.
    simpl. split; apply andb_swap.
Qed.

(** X19: a feature is in the required set of [getUniqueFeaturesUsed] exactly
    when the declaration uses it as a required feature and no enclosing
    declaration does; likewise for the suppressible set.  Leaving the loop
    early, as soon as the set is empty, changes nothing. *)
Theorem getUniqueFeaturesUsed_spec (decl : Decl) (j : N) :
  bits_contains (required (getUniqueFeaturesUsed numFeatures table decl)) j
  = bits_contains (required (featuresUsed numFeatures table decl)) j
    && forallb (fun outer =>
                  negb (bits_contains
                          (required (featuresUsed numFeatures table outer)) j))
         (enclosingDecls decl)
  /\ bits_contains (suppressible (getUniqueFeaturesUsed numFeatures table decl)) j
     = bits_contains (suppressible (featuresUsed numFeatures table decl)) j
       && forallb (fun outer =>
                     negb (bits_contains
                             (suppressible (featuresUsed numFeatures table outer)) j))
            (enclosingDecls decl).
Proof.
  unfold getUniqueFeaturesUsed.
  destruct (removeEnclosing_contains decl
              (collectFeaturesUsed numFeatures table decl Insert emptyFeatureSet) j)
    as [Hr Hs].
  rewrite Hr, Hs. unfold featuresUsed. split; apply andb_comm.
Qed.

(** X20: inserting the features a declaration uses and then removing them,
    starting from any set, leaves no feature of that declaration in the set
    and touches no other bit. *)
Theorem collectFeaturesUsed_insert_remove (decl : Decl) (features : FeatureSet)
  (j : N) :
  let after :=
    collectFeaturesUsed numFeatures table decl Remove
      (collectFeaturesUsed numFeatures table decl Insert features) in
  bits_contains (required after) j
  = negb (bits_contains (required (featuresUsed numFeatures table decl)) j)
    && bits_contains (required features) j
  /\ bits_contains (suppressible after) j
     = negb (bits_contains (suppressible (featuresUsed numFeatures table decl)) j)
       && bits_contains (suppressible features) j.
Proof.
  simpl.
  rewrite collect_Remove_required, collect_Remove_suppressible,
    collect_Insert_required, collect_Insert_suppressible.
  split.
  - destruct (bits_contains (required (featuresUsed numFeatures table decl)) j);
      reflexivity.
  - destruct (bits_contains (suppressible (featuresUsed numFeatures table decl)) j);
      reflexivity.
Qed.

End Collect.

(** *** The bit set over [N] and the toy table *)

Lemma bitsN_laws : FixedBitSetLaws bitsN.
Proof.
  constructor; simpl.
  - apply N.bits_0.
  - intros s i j. apply N.setbit_eqb.
  - intros s i j. rewrite N.clearbit_eqb. apply andb_comm.
  - intros r s H i. apply andb_true_iff in H as [Hr Hs].
    apply N.eqb_eq in Hr, Hs. subst r s. split; apply N.bits_0.
Qed.

(** The accessor uses feature 3 and nothing around it does; the class nested
    in an open class with the same isolated deinit uses feature 2, which its
    enclosing class uses too. *)
Lemma getUniqueFeaturesUsed_spec_witness :
  (bits_contains (required (getUniqueFeaturesUsed 10 toyTable accessor)) 3
   = bits_contains (required (featuresUsed 10 toyTable accessor)) 3
     && forallb (fun outer =>
                   negb (bits_contains
                           (required (featuresUsed 10 toyTable outer)) 3))
          (enclosingDecls accessor)
   /\ bits_contains (suppressible (getUniqueFeaturesUsed 10 toyTable accessor)) 3
      = bits_contains (suppressible (featuresUsed 10 toyTable accessor)) 3
        && forallb (fun outer =>
                      negb (bits_contains
                              (suppressible (featuresUsed 10 toyTable outer)) 3))
             (enclosingDecls accessor))
  /\ (bits_contains (required (getUniqueFeaturesUsed 10 toyTable nestedOpenClass)) 8
      = bits_contains (required (featuresUsed 10 toyTable nestedOpenClass)) 8
        && forallb (fun outer =>
                      negb (bits_contains
                              (required (featuresUsed 10 toyTable outer)) 8))
             (enclosingDecls nestedOpenClass)
      /\ bits_contains (suppressible (getUniqueFeaturesUsed 10 toyTable nestedOpenClass)) 8
         = bits_contains (suppressible (featuresUsed 10 toyTable nestedOpenClass)) 8
           && forallb (fun outer =>
                         negb (bits_contains
                                 (suppressible (featuresUsed 10 toyTable outer)) 8))
                (enclosingDecls nestedOpenClass)).
Proof.
  split.
  - exact (getUniqueFeaturesUsed_spec bitsN_laws 10 toyTable accessor 3).
  - exact (getUniqueFeaturesUsed_spec bitsN_laws 10 toyTable nestedOpenClass 8).
Defined.

Lemma collectFeaturesUsed_insert_remove_witness :
  bits_contains
    (required (collectFeaturesUsed 10 toyTable accessor Remove
                 (collectFeaturesUsed 10 toyTable accessor Insert
                    (mkFeatureSet 10%N 0%N)))) 3
  = negb (bits_contains (required (featuresUsed 10 toyTable accessor)) 3)
    && bits_contains (required (mkFeatureSet 10%N 0%N)) 3
  /\ bits_contains
       (suppressible (collectFeaturesUsed 10 toyTable accessor Remove
                        (collectFeaturesUsed 10 toyTable accessor Insert
                           (mkFeatureSet 10%N 0%N)))) 3
     = negb (bits_contains (suppressible (featuresUsed 10 toyTable accessor)) 3)
       && bits_contains (suppressible (mkFeatureSet 10%N 0%N)) 3.
Proof.
  exact (collectFeaturesUsed_insert_remove bitsN_laws 10 toyTable accessor
           (mkFeatureSet 10%N 0%N) 3).
Defined.

End FeatureSetProperties.
